(** * The task lifecycle engine of the orchestrator

    A shallow embedding of [orchestrator/db/models.py], [orchestrator/config.py],
    [orchestrator/core/task_queue.py], [orchestrator/core/claude_runner.py],
    [orchestrator/core/worker.py], [orchestrator/core/result_processor.py]
    and of the validators and endpoints of [orchestrator/api/models.py] and
    [orchestrator/api/routes.py].

    Conventions of the embedding:
    - Python [int] is [Z]; [len] and slice bounds are [nat].
    - [datetime] is a count of microseconds ([Z]); [timedelta(seconds=n)] is
      [n * 1000000].
    - [str] is [string]; a character stands for the code point of the same
      number (U+0000 .. U+00FF).
    - the two tables are lists of rows in scan (insertion) order; a query by
      primary key takes the first row with that key.
    - the clock, the uuid generator, the random generator and the child
      process are inputs of the operation that reads them. *)

From Stdlib Require Import ZArith QArith Qround Lqa String Ascii List Sorted Lia DecimalString.
From stdpp Require Import gmap strings list.

Local Open Scope Z_scope.

Definition datetime := Z.

(** [timedelta(seconds=n)] *)
Definition timedelta_seconds (n : Z) : Z := n * 1000000.

(** [str(n)] and the [{n}] of an f-string, for an [int]. *)
Definition str_int (n : Z) : string := NilZero.string_of_int (Z.to_int n).

(** ** db/models.py *)

Inductive TaskStatus :=
  | PENDING | QUEUED | RUNNING | PROCESSING | COMPLETED | FAILED | RETRY | DEAD.

#[global] Instance TaskStatus_eq_dec : EqDecision TaskStatus.
Proof. solve_decision. Defined.

(** [TaskStatus.value] *)
Definition status_value (s : TaskStatus) : string :=
  match s with
  | PENDING => "pending" | QUEUED => "queued" | RUNNING => "running"
  | PROCESSING => "processing" | COMPLETED => "completed"
  | FAILED => "failed" | RETRY => "retry" | DEAD => "dead"
  end.

(** The [delivery] JSON object, with the three keys the code reads. *)
Record Delivery := mkDelivery {
  email : option string;
  storage : option string;
  folder : option string
}.

(** A row of [tasks]. [tid] is the column [id] and [type_] the column [type]. *)
Record Task := mkTask {
  tid : string;
  type_ : string;
  title : string;
  description : option string;
  config : option (list (string * string));
  delivery : option Delivery;
  status : TaskStatus;
  attempts : Z;
  max_attempts : Z;
  last_error : option string;
  next_retry_at : option datetime;
  created_at : datetime;
  queued_at : option datetime;
  started_at : option datetime;
  completed_at : option datetime;
  outputs_path : option string;
  result_summary : option string;
  cloud_links : option (list (string * string));
  attachment_refs : option (list string);
  correlation_id : option string
}.

(** A value of the free-form [data] column of a log entry. *)
Inductive LogValue :=
  | VInt (n : Z)
  | VIsoformat (d : datetime).

(** A row of [task_logs]. *)
Record TaskLog := mkTaskLog {
  log_id : Z;
  log_task_id : string;
  level : string;
  event : string;
  message : string;
  data : option (list (string * LogValue));
  timestamp : datetime;
  log_correlation_id : option string
}.

(** The persisted state: both tables, rows in insertion order. *)
Record Store := mkStore {
  tasks : list Task;
  task_logs : list TaskLog
}.

Definition empty_store : Store := mkStore [] [].

(** Column assignments on a row. *)
Definition set_status (v : TaskStatus) (t : Task) : Task :=
  mkTask (tid t) (type_ t) (title t) (description t) (config t) (delivery t)
    v (attempts t) (max_attempts t) (last_error t) (next_retry_at t)
    (created_at t) (queued_at t) (started_at t) (completed_at t)
    (outputs_path t) (result_summary t) (cloud_links t) (attachment_refs t)
    (correlation_id t).

Definition set_attempts (v : Z) (t : Task) : Task :=
  mkTask (tid t) (type_ t) (title t) (description t) (config t) (delivery t)
    (status t) v (max_attempts t) (last_error t) (next_retry_at t)
    (created_at t) (queued_at t) (started_at t) (completed_at t)
    (outputs_path t) (result_summary t) (cloud_links t) (attachment_refs t)
    (correlation_id t).

Definition set_last_error (v : option string) (t : Task) : Task :=
  mkTask (tid t) (type_ t) (title t) (description t) (config t) (delivery t)
    (status t) (attempts t) (max_attempts t) v (next_retry_at t)
    (created_at t) (queued_at t) (started_at t) (completed_at t)
    (outputs_path t) (result_summary t) (cloud_links t) (attachment_refs t)
    (correlation_id t).

Definition set_next_retry_at (v : option datetime) (t : Task) : Task :=
  mkTask (tid t) (type_ t) (title t) (description t) (config t) (delivery t)
    (status t) (attempts t) (max_attempts t) (last_error t) v
    (created_at t) (queued_at t) (started_at t) (completed_at t)
    (outputs_path t) (result_summary t) (cloud_links t) (attachment_refs t)
    (correlation_id t).

Definition set_started_at (v : option datetime) (t : Task) : Task :=
  mkTask (tid t) (type_ t) (title t) (description t) (config t) (delivery t)
    (status t) (attempts t) (max_attempts t) (last_error t) (next_retry_at t)
    (created_at t) (queued_at t) v (completed_at t)
    (outputs_path t) (result_summary t) (cloud_links t) (attachment_refs t)
    (correlation_id t).

Definition set_completed_at (v : option datetime) (t : Task) : Task :=
  mkTask (tid t) (type_ t) (title t) (description t) (config t) (delivery t)
    (status t) (attempts t) (max_attempts t) (last_error t) (next_retry_at t)
    (created_at t) (queued_at t) (started_at t) v
    (outputs_path t) (result_summary t) (cloud_links t) (attachment_refs t)
    (correlation_id t).

Definition set_result_summary (v : option string) (t : Task) : Task :=
  mkTask (tid t) (type_ t) (title t) (description t) (config t) (delivery t)
    (status t) (attempts t) (max_attempts t) (last_error t) (next_retry_at t)
    (created_at t) (queued_at t) (started_at t) (completed_at t)
    (outputs_path t) v (cloud_links t) (attachment_refs t)
    (correlation_id t).

Definition set_cloud_links (v : option (list (string * string))) (t : Task) : Task :=
  mkTask (tid t) (type_ t) (title t) (description t) (config t) (delivery t)
    (status t) (attempts t) (max_attempts t) (last_error t) (next_retry_at t)
    (created_at t) (queued_at t) (started_at t) (completed_at t)
    (outputs_path t) (result_summary t) v (attachment_refs t)
    (correlation_id t).

(** ** config.py *)

Record Settings := mkSettings {
  settings_outputs_path : string;
  research_timeout_minutes : Z;
  analysis_timeout_minutes : Z;
  document_timeout_minutes : Z;
  research_max_turns : Z;
  analysis_max_turns : Z;
  document_max_turns : Z;
  max_task_attempts : Z;
  retry_base_delay_seconds : Z;
  retry_max_delay_seconds : Z;
  worker_poll_interval_seconds : Z
}.

(** The [Field(default=...)] values. *)
Definition default_settings : Settings :=
  mkSettings "/data/outputs" 30 20 15 100 50 30 3 60 900 5.

(** [Settings.get_task_timeout]: a dict lookup with the document timeout as
    the default. *)
Definition get_task_timeout (s : Settings) (task_type : string) : Z :=
  if String.eqb task_type "research" then research_timeout_minutes s * 60
  else if String.eqb task_type "analysis" then analysis_timeout_minutes s * 60
  else if String.eqb task_type "document" then document_timeout_minutes s * 60
  else document_timeout_minutes s * 60.

Definition get_task_max_turns (s : Settings) (task_type : string) : Z :=
  if String.eqb task_type "research" then research_max_turns s
  else if String.eqb task_type "analysis" then analysis_max_turns s
  else if String.eqb task_type "document" then document_max_turns s
  else document_max_turns s.

(** ** core/task_queue.py *)

Module TaskQueue.

(** The exception [mark_failed] raises. *)
Inductive exn :=
  | ValueError (msg : string).

(** [select(Task).where(Task.id == task_id)] with [scalar_one_or_none]. *)
Definition select_by_id (task_id : string) (rows : list Task) : option Task :=
  List.find (fun t => String.eqb (tid t) task_id) rows.

(** [UPDATE tasks SET ... WHERE id = task_id]: every matching row. *)
Definition update_by_id (task_id : string) (f : Task -> Task)
    (rows : list Task) : list Task :=
  map (fun t => if String.eqb (tid t) task_id then f t else t) rows.

(** [_log_event]: [session.add] of a new log row; the key is
    auto-incremented and the timestamp defaults to the clock. *)
Definition _log_event (s : Store) (now : datetime)
    (task_id level event message : string)
    (data : option (list (string * LogValue)))
    (correlation_id : option string) : Store :=
  mkStore (tasks s)
    (task_logs s ++
       [mkTaskLog (Z.of_nat (length (task_logs s)) + 1) task_id level event
          message data now correlation_id]).

(** [enqueue]; [task_id] is the [uuid4] drawn by the call. *)
Definition enqueue (cfg : Settings) (now : datetime) (task_id : string)
    (task_type title description : string)
    (config : option (list (string * string)))
    (delivery : option Delivery) (attachments : option (list string))
    (correlation_id : option string) (s : Store) : Task * Store :=
  let outputs_path := settings_outputs_path cfg +:+ "/" +:+ task_id in
  let task :=
    mkTask task_id task_type title (Some description) config delivery
      QUEUED 0 (max_task_attempts cfg) None None now (Some now) None None
      (Some outputs_path) None None attachments correlation_id in
  let s1 := mkStore (tasks s ++ [task]) (task_logs s) in
  (task,
   _log_event s1 now task_id "info" "task_queued"
     ("Task '" +:+ title +:+ "' queued for processing") None correlation_id).

(** The [where] clause of [dequeue]; a comparison with NULL is not true. *)
Definition eligible (now : datetime) (t : Task) : bool :=
  bool_decide (status t = QUEUED)
  || (bool_decide (status t = RETRY)
      && match next_retry_at t with
         | Some d => d <=? now
         | None => false
         end).

(** [order_by(Task.created_at)]: a stable sort of the scanned rows. *)
Fixpoint insert_by_created_at (t : Task) (l : list Task) : list Task :=
  match l with
  | [] => [t]
  | u :: l' =>
      if created_at t <=? created_at u then t :: u :: l'
      else u :: insert_by_created_at t l'
  end.

Fixpoint order_by_created_at (l : list Task) : list Task :=
  match l with
  | [] => []
  | t :: l' => insert_by_created_at t (order_by_created_at l')
  end.

(** The row as [dequeue] leaves it. *)
Definition claim (now : datetime) (t : Task) : Task :=
  set_attempts (attempts t + 1) (set_started_at (Some now) (set_status RUNNING t)).

(** [dequeue]; [limit(1)] and [scalar_one_or_none] take the head. *)
Definition dequeue (now : datetime) (s : Store) : option Task * Store :=
  match head (order_by_created_at (filter (fun t => eligible now t = true) (tasks s))) with
  | None => (None, s)
  | Some task0 =>
      let task := claim now task0 in
      let s1 := mkStore (update_by_id (tid task0) (claim now) (tasks s)) (task_logs s) in
      (Some task,
       _log_event s1 now (tid task) "info" "task_started"
         ("Task started (attempt " +:+ str_int (attempts task) +:+ "/"
            +:+ str_int (max_attempts task) +:+ ")")
         None (correlation_id task))
  end.

Definition mark_processing (now : datetime) (task_id : string) (s : Store) : Store :=
  let s1 := mkStore (update_by_id task_id (set_status PROCESSING) (tasks s)) (task_logs s) in
  _log_event s1 now task_id "info" "task_processing"
    "Claude execution complete, processing results" None None.

Definition mark_completed (now : datetime) (task_id : string)
    (summary : option string) (links : option (list (string * string)))
    (s : Store) : Store :=
  let values t :=
    set_cloud_links links
      (set_result_summary summary
         (set_completed_at (Some now) (set_status COMPLETED t))) in
  let s1 := mkStore (update_by_id task_id values (tasks s)) (task_logs s) in
  _log_event s1 now task_id "info" "task_completed"
    "Task completed successfully" None None.

(** [random.uniform(a, b)] is [a + (b - a) * random()]; [u] is the draw of
    [random()], taken over the rationals. *)
Definition uniform (a b u : Q) : Q := (a + (b - a) * u)%Q.

(** [int(x)]: truncation towards zero. *)
Definition int_of_Q (x : Q) : Z := Z.quot (Qnum x) (Zpos (Qden x)).

(** [_calculate_retry_delay]; [attempt] is never negative. *)
Definition _calculate_retry_delay (cfg : Settings) (attempt : Z) (u : Q) : Z :=
  let base := retry_base_delay_seconds cfg in
  let max_delay := retry_max_delay_seconds cfg in
  let delay := Z.min (base * 2 ^ attempt) max_delay in
  let jitter := uniform 0 (inject_Z delay * (1 # 10)) u in
  int_of_Q (inject_Z delay + jitter).

(** The two branches of [mark_failed], as assignments on the row. *)
Definition schedule_retry (error : string) (next_retry : datetime) (t : Task) : Task :=
  set_next_retry_at (Some next_retry) (set_last_error (Some error) (set_status RETRY t)).

Definition fail_permanently (retry : bool) (error : string) (now : datetime)
    (t : Task) : Task :=
  set_completed_at (Some now)
    (set_last_error (Some error) (set_status (if retry then DEAD else FAILED) t)).

(** [mark_failed]; [u] is the draw the retry delay uses. A raise leaves the
    session uncommitted. *)
Definition mark_failed (cfg : Settings) (now : datetime) (u : Q)
    (task_id error : string) (retry : bool) (s : Store)
    : exn + (TaskStatus * Store) :=
  match select_by_id task_id (tasks s) with
  | None => inl (ValueError ("Task " +:+ task_id +:+ " not found"))
  | Some task =>
      if retry && (attempts task <? max_attempts task) then
        let delay := _calculate_retry_delay cfg (attempts task) u in
        let next_retry := now + timedelta_seconds delay in
        let s1 :=
          mkStore (update_by_id task_id (schedule_retry error next_retry) (tasks s))
            (task_logs s) in
        inr (status (schedule_retry error next_retry task),
             _log_event s1 now task_id "warning" "task_retry_scheduled"
               ("Task failed, retry scheduled in " +:+ str_int delay +:+ "s: "
                  +:+ error)
               (Some [("attempt", VInt (attempts task));
                      ("next_retry", VIsoformat next_retry)])
               None)
      else
        let s1 :=
          mkStore (update_by_id task_id (fail_permanently retry error now) (tasks s))
            (task_logs s) in
        inr (status (fail_permanently retry error now task),
             _log_event s1 now task_id "error"
               (if retry then "task_dead" else "task_failed")
               ("Task failed permanently: " +:+ error)
               (Some [("attempts", VInt (attempts task))])
               None)
  end.

Definition is_terminal (st : TaskStatus) : bool :=
  match st with
  | COMPLETED | DEAD | FAILED => true
  | _ => false
  end.

Definition cancelled (now : datetime) (t : Task) : Task :=
  set_completed_at (Some now)
    (set_last_error (Some "Cancelled by user") (set_status FAILED t)).

Definition cancel (now : datetime) (task_id : string) (s : Store) : bool * Store :=
  match select_by_id task_id (tasks s) with
  | None => (false, s)
  | Some task =>
      if is_terminal (status task) then (false, s)
      else
        let s1 := mkStore (update_by_id task_id (cancelled now) (tasks s)) (task_logs s) in
        (true,
         _log_event s1 now task_id "info" "task_cancelled"
           "Task cancelled by user" None None)
  end.

Definition get_task (task_id : string) (s : Store) : option Task :=
  select_by_id task_id (tasks s).

(** The rows [dequeue] may take at [now], in words. *)
Definition claimable (now : datetime) (t : Task) : Prop :=
  status t = QUEUED
  \/ (status t = RETRY /\ exists d, next_retry_at t = Some d /\ d <= now).

(** The retry time is set exactly in RETRY. *)
Definition retry_iff (t : Task) : Prop :=
  status t = RETRY <-> next_retry_at t <> None.

(** A task in RETRY has its retry time set. *)
Definition retry_is_scheduled (t : Task) : Prop :=
  status t = RETRY -> next_retry_at t <> None.

(** A call of one of the six mutators, with what it reads from outside. *)
Inductive Op :=
  | OpEnqueue (now : datetime) (task_id task_type title description : string)
      (config : option (list (string * string))) (delivery : option Delivery)
      (attachments : option (list string)) (correlation_id : option string)
  | OpDequeue (now : datetime)
  | OpMarkProcessing (now : datetime) (task_id : string)
  | OpMarkCompleted (now : datetime) (task_id : string)
      (summary : option string) (links : option (list (string * string)))
  | OpMarkFailed (now : datetime) (u : Q) (task_id error : string) (retry : bool)
  | OpCancel (now : datetime) (task_id : string).

Definition apply_op (cfg : Settings) (s : Store) (o : Op) : Store :=
  match o with
  | OpEnqueue now task_id task_type title description config delivery att cid =>
      snd (enqueue cfg now task_id task_type title description config delivery att cid s)
  | OpDequeue now => snd (dequeue now s)
  | OpMarkProcessing now task_id => mark_processing now task_id s
  | OpMarkCompleted now task_id summary links =>
      mark_completed now task_id summary links s
  | OpMarkFailed now u task_id error retry =>
      match mark_failed cfg now u task_id error retry s with
      | inl _ => s
      | inr (_, s') => s'
      end
  | OpCancel now task_id => snd (cancel now task_id s)
  end.

(** The store after a history of calls, oldest first. *)
Definition run (cfg : Settings) (history : list Op) (s : Store) : Store :=
  fold_left (apply_op cfg) history s.

(** *** The read operations *)

(** [order_by(Task.created_at.desc())]: a stable sort, newest first. *)
Fixpoint insert_by_created_at_desc (t : Task) (l : list Task) : list Task :=
  match l with
  | [] => [t]
  | u :: l' =>
      if created_at u <=? created_at t then t :: u :: l'
      else u :: insert_by_created_at_desc t l'
  end.

Fixpoint order_by_created_at_desc (l : list Task) : list Task :=
  match l with
  | [] => []
  | t :: l' => insert_by_created_at_desc t (order_by_created_at_desc l')
  end.

(** The optional [where(Task.status == status)] of [list_tasks]. *)
Definition has_status (filter_status : option TaskStatus) (t : Task) : bool :=
  match filter_status with
  | None => true
  | Some st => bool_decide (status t = st)
  end.

(** [list_tasks]: the page and the total count. [limit] and [offset] are
    not negative at any call site. *)
Definition list_tasks (filter_status : option TaskStatus) (limit offset : nat)
    (s : Store) : list Task * Z :=
  let matching := filter (fun t => has_status filter_status t = true) (tasks s) in
  (take limit (drop offset (order_by_created_at_desc matching)),
   Z.of_nat (length matching)).

(** [order_by(TaskLog.timestamp.desc())] *)
Fixpoint insert_by_timestamp_desc (e : TaskLog) (l : list TaskLog) : list TaskLog :=
  match l with
  | [] => [e]
  | u :: l' =>
      if timestamp u <=? timestamp e then e :: u :: l'
      else u :: insert_by_timestamp_desc e l'
  end.

Fixpoint order_by_timestamp_desc (l : list TaskLog) : list TaskLog :=
  match l with
  | [] => []
  | e :: l' => insert_by_timestamp_desc e (order_by_timestamp_desc l')
  end.

(** [get_task_logs] *)
Definition get_task_logs (task_id : string) (limit : nat) (s : Store) : list TaskLog :=
  take limit
    (order_by_timestamp_desc
       (filter (fun e => String.eqb (log_task_id e) task_id = true) (task_logs s))).

(** [func.count()] of one group of [group_by(Task.status)]; a status
    without rows has no group, and [counts.get(_, 0)] reads 0. *)
Definition count_status (st : TaskStatus) (rows : list Task) : Z :=
  Z.of_nat (length (filter (fun t => status t = st) rows)).

(** [get_queue_stats]: the seven entries of the returned dict. *)
Definition get_queue_stats (s : Store) : list (string * Z) :=
  [("queued", count_status QUEUED (tasks s));
   ("running", count_status RUNNING (tasks s));
   ("processing", count_status PROCESSING (tasks s));
   ("completed", count_status COMPLETED (tasks s));
   ("failed", count_status FAILED (tasks s));
   ("retry", count_status RETRY (tasks s));
   ("dead", count_status DEAD (tasks s))].

(** *** Invariants of a row *)

(** Attempts stay within the budget, and a task that can still be taken
    has an attempt left. *)
Definition within_budget (t : Task) : Prop :=
  attempts t <= max_attempts t
  /\ (status t = QUEUED \/ status t = RETRY -> attempts t < max_attempts t).

(** A finished task has its completion time and a running task its start
    time. *)
Definition timestamps_set (t : Task) : Prop :=
  (is_terminal (status t) = true -> completed_at t <> None)
  /\ (status t = RUNNING -> started_at t <> None).

(** The order of a listing: [x] comes before [y]. *)
Definition newer_first (x y : Task) : Prop := created_at y <= created_at x.

Definition later_first (x y : TaskLog) : Prop := timestamp y <= timestamp x.

(** The id an [enqueue] call adds, if the call is one. *)
Definition enqueued_id (o : Op) : list string :=
  match o with
  | OpEnqueue _ task_id _ _ _ _ _ _ _ => [task_id]
  | _ => []
  end.

End TaskQueue.

(** ** core/claude_runner.py *)

Module ClaudeRunner.

Record ClaudeResult := mkClaudeResult {
  success : bool;
  output : option string;
  error : option string;
  duration_seconds : Q;
  turns_used : Z;
  partial : bool
}.

(** What the child process does, as far as the runner observes it.
    [exit_after]: seconds after which it exits by itself, if ever.
    [stdout_turns]: the [turns] entry of stdout read as JSON, [None] when
    stdout is not JSON. [term_after]: seconds it needs to exit after
    SIGTERM, [None] when it ignores the signal. *)
Record Process := mkProcess {
  exit_after : option Z;
  returncode : Z;
  stdout : string;
  stderr : string;
  stdout_turns : option Z;
  term_after : option Z
}.

Inductive Signal := SIGTERM | SIGKILL.

(** The runner: the registry of live children, and the signals it has sent
    so far (oldest first). *)
Record Runner := mkRunner {
  _active_processes : gmap string Process;
  signals : list (string * Signal)
}.

Definition new_runner : Runner := mkRunner ∅ [].

(** The outcome of [asyncio.create_subprocess_exec] and of the wait. *)
Inductive Spawn :=
  | SpawnFileNotFound
  | SpawnRaises (msg : string)
  | Spawned (p : Process)
  | SpawnedCancelled (p : Process).

Definition pop (task_id : string) (r : Runner) : Runner :=
  mkRunner (delete task_id (_active_processes r)) (signals r).

Definition exits_within (limit : Z) (after : option Z) : bool :=
  match after with
  | Some d => d <=? limit
  | None => false
  end.

(** [cancel_task]; [alive] tells whether the child still runs when the
    signal is sent (otherwise [send_signal] raises ProcessLookupError). *)
Definition cancel_task (task_id : string) (alive : bool) (r : Runner)
    : bool * Runner :=
  match _active_processes r !! task_id with
  | None => (false, r)
  | Some process =>
      let sent :=
        if alive then
          (task_id, SIGTERM) ::
            (if exits_within 5 (term_after process) then []
             else [(task_id, SIGKILL)])
        else [] in
      (true, pop task_id (mkRunner (_active_processes r) (signals r ++ sent)))
  end.

Definition timed_out_result (timeout : Z) : ClaudeResult :=
  mkClaudeResult false None
    (Some ("Execution timed out after " +:+ str_int timeout +:+ " seconds"))
    0 0 true.

Definition exited_result (p : Process) : ClaudeResult :=
  if returncode p =? 0 then
    mkClaudeResult true (Some (stdout p)) None 0
      (match stdout_turns p with Some n => n | None => 0 end) false
  else
    mkClaudeResult false
      (if String.eqb (stdout p) "" then None else Some (stdout p))
      (Some (if String.eqb (stderr p) "" then
               "Claude exited with code " +:+ str_int (returncode p)
             else stderr p))
      0 0 false.

(** [_run_claude]. [None] is the propagation of [asyncio.CancelledError],
    which [except Exception] does not catch. *)
Definition _run_claude (task_id : string) (timeout : Z) (sp : Spawn)
    (r : Runner) : option ClaudeResult * Runner :=
  match sp with
  | SpawnFileNotFound =>
      (Some (mkClaudeResult false None
               (Some "Claude CLI not found. Is it installed?") 0 0 false), r)
  | SpawnRaises msg =>
      (Some (mkClaudeResult false None (Some msg) 0 0 false), r)
  | Spawned p =>
      let r1 := mkRunner (<[task_id := p]> (_active_processes r)) (signals r) in
      if exits_within timeout (exit_after p) then
        (Some (exited_result p), pop task_id r1)
      else
        let r2 := snd (cancel_task task_id true r1) in
        (Some (timed_out_result timeout), pop task_id r2)
  | SpawnedCancelled p =>
      let r1 := mkRunner (<[task_id := p]> (_active_processes r)) (signals r) in
      (None, pop task_id r1)
  end.

Definition with_duration (d : Q) (c : ClaudeResult) : ClaudeResult :=
  mkClaudeResult (success c) (output c) (error c) d (turns_used c) (partial c).

(** [(b - a).total_seconds()] *)
Definition total_seconds (a b : datetime) : Q := ((b - a) # 1000000)%Q.

(** [execute_task]; [start_time] and [end_time] are its two clock reads. *)
Definition execute_task (cfg : Settings) (task : Task)
    (start_time end_time : datetime) (sp : Spawn) (r : Runner)
    : ClaudeResult * Runner :=
  let timeout := get_task_timeout cfg (type_ task) in
  let duration := total_seconds start_time end_time in
  match _run_claude (tid task) timeout sp r with
  | (Some result, r') => (with_duration duration result, r')
  | (None, r') =>
      (mkClaudeResult false None (Some "Execution cancelled") duration 0 true, r')
  end.

End ClaudeRunner.

(** ** core/worker.py *)

Module Worker.
Import ClaudeRunner.

(** The fields of [ProcessingResult] the worker reads. *)
Record ProcessingResult := mkProcessingResult {
  p_summary : option string;
  p_cloud_links : option (list (string * string));
  p_notification_sent : bool
}.

(** What one pass of the loop reads from outside: the clock at each step,
    the child process, the draw of the retry jitter, and what
    [processor.process] returns ([inl] is the text of an exception). *)
Record World := mkWorld {
  claim_time : datetime;
  start_time : datetime;
  end_time : datetime;
  spawn : Spawn;
  processing_time : datetime;
  processing : string + ProcessingResult;
  finish_time : datetime;
  draw : Q
}.

(** [x or d] for an optional text. *)
Definition or_default (x : option string) (d : string) : string :=
  match x with
  | None => d
  | Some e => if String.eqb e "" then d else e
  end.

(** [mark_failed] as a statement: a raise leaves the store unchanged. *)
Definition store_after (q : Store) (r : TaskQueue.exn + (TaskStatus * Store))
    : Store :=
  match r with
  | inl _ => q
  | inr (_, q') => q'
  end.

(** The [except Exception as e] handler of the inner [try]. *)
Definition on_exception (cfg : Settings) (w : World) (task : Task)
    (e : string) (q : Store) : Store :=
  store_after q (TaskQueue.mark_failed cfg (finish_time w) (draw w) (tid task) e true q).

(** The inner [try] block, for a dequeued [task]. *)
Definition process_task (cfg : Settings) (w : World) (task : Task)
    (q : Store) (r : Runner) : Store * Runner :=
  let '(result, r') := execute_task cfg task (start_time w) (end_time w) (spawn w) r in
  if success result then
    let q1 := TaskQueue.mark_processing (processing_time w) (tid task) q in
    match processing w with
    | inr p =>
        (TaskQueue.mark_completed (finish_time w) (tid task)
           (p_summary p) (p_cloud_links p) q1, r')
    | inl e => (on_exception cfg w task e q1, r')
    end
  else
    match TaskQueue.mark_failed cfg (finish_time w) (draw w) (tid task)
            (or_default (error result) "Unknown error")
            (negb (partial result)) q with
    | inr (_, q') => (q', r')
    | inl (TaskQueue.ValueError msg) => (on_exception cfg w task msg q, r')
    end.

(** One pass of the [while] loop of [start]. *)
Definition iteration (cfg : Settings) (w : World) (q : Store) (r : Runner)
    : Store * Runner :=
  match TaskQueue.dequeue (claim_time w) q with
  | (None, q') => (q', r)
  | (Some task, q') => process_task cfg w task q' r
  end.

End Worker.

(** ** core/result_processor.py: summary extraction *)

Module ResultProcessor.

Local Open Scope nat_scope.

(** [str.isspace] on one character, for code points below 256. *)
Definition isspace (c : ascii) : bool :=
  let n := nat_of_ascii c in
  ((9 <=? n) && (n <=? 13)) || ((28 <=? n) && (n <=? 32))
  || (n =? 133) || (n =? 160).

Fixpoint lstrip (s : string) : string :=
  match s with
  | EmptyString => EmptyString
  | String c s' => if isspace c then lstrip s' else s
  end.

Fixpoint rstrip (s : string) : string :=
  match s with
  | EmptyString => EmptyString
  | String c s' =>
      match rstrip s' with
      | EmptyString => if isspace c then EmptyString else String c EmptyString
      | r => String c r
      end
  end.

(** [s.strip()] *)
Definition strip (s : string) : string := rstrip (lstrip s).

Definition newline : ascii := ascii_of_nat 10.

(** [s.split("\n")] *)
Fixpoint split_lines (s : string) : list string :=
  match s with
  | EmptyString => [EmptyString]
  | String c s' =>
      if Ascii.eqb c newline then EmptyString :: split_lines s'
      else
        match split_lines s' with
        | [] => [String c EmptyString]
        | l :: ls => String c l :: ls
        end
  end.

(** ["\n".join(ls)] *)
Definition join_lines (ls : list string) : string :=
  String.concat (String newline EmptyString) ls.

(** [s.startswith(p)] *)
Definition startswith (p s : string) : bool := String.prefix p s.

(** [sum(len(l) for l in ls)] *)
Definition total_len (ls : list string) : nat :=
  list_sum (map String.length ls).

(** The part of [s] before its last space, if it has a space. *)
Fixpoint before_last_space (s : string) : option string :=
  match s with
  | EmptyString => None
  | String c s' =>
      match before_last_space s' with
      | Some p => Some (String c p)
      | None => if Ascii.eqb c " "%char then Some EmptyString else None
      end
  end.

(** [s.rsplit(" ", 1)[0]] *)
Definition rsplit_head (s : string) : string :=
  match before_last_space s with
  | Some p => p
  | None => s
  end.

Definition fence : string := "```".

(** The [for] loop of [_extract_first_section]: returns [summary_lines] as
    the loop leaves it, by [break] or at the end of [lines]. *)
Fixpoint scan_lines (max_length : nat) (lines summary_lines : list string)
    (in_code_block : bool) : list string :=
  match lines with
  | [] => summary_lines
  | line :: rest =>
      if startswith fence (strip line) then
        scan_lines max_length rest summary_lines (negb in_code_block)
      else if in_code_block then
        scan_lines max_length rest summary_lines in_code_block
      else if (length summary_lines =? 0) && String.eqb (strip line) "" then
        scan_lines max_length rest summary_lines in_code_block
      else if startswith "#" line && negb (length summary_lines =? 0) then
        summary_lines
      else
        let summary_lines' := summary_lines ++ [line] in
        if max_length <? total_len summary_lines' then summary_lines'
        else scan_lines max_length rest summary_lines' in_code_block
  end.

(** The final truncation of [_extract_first_section]. *)
Definition truncate (max_length : nat) (summary : string) : string :=
  if max_length <? String.length summary then
    rsplit_head (substring 0 max_length summary) +:+ "..."
  else summary.

(** [_extract_first_section(content, max_length)] *)
Definition _extract_first_section (content : string) (max_length : nat) : string :=
  let lines := split_lines (strip content) in
  let summary_lines := scan_lines max_length lines [] false in
  truncate max_length (strip (join_lines summary_lines)).

(** *** The same extraction as a pipeline over the lines *)

(** The lines outside fenced code blocks, without the fence lines. *)
Fixpoint outside_fences (in_code_block : bool) (lines : list string) : list string :=
  match lines with
  | [] => []
  | line :: rest =>
      if startswith fence (strip line) then outside_fences (negb in_code_block) rest
      else if in_code_block then outside_fences in_code_block rest
      else line :: outside_fences in_code_block rest
  end.

Definition is_blank (line : string) : bool := String.eqb (strip line) "".

Fixpoint drop_leading_blank (lines : list string) : list string :=
  match lines with
  | [] => []
  | line :: rest => if is_blank line then drop_leading_blank rest else lines
  end.

(** The lines before the first one that starts with [#]. *)
Fixpoint until_hash (lines : list string) : list string :=
  match lines with
  | [] => []
  | line :: rest => if startswith "#" line then [] else line :: until_hash rest
  end.

(** The first line, then the lines before the next one that starts with [#]. *)
Definition first_block (lines : list string) : list string :=
  match lines with
  | [] => []
  | line :: rest => line :: until_hash rest
  end.

(** The lines up to and including the first one with which the lengths
    add up, from [seen] on, to more than [max_length]. *)
Fixpoint cap_lines (max_length seen : nat) (lines : list string) : list string :=
  match lines with
  | [] => []
  | line :: rest =>
      if max_length <? seen + String.length line then [line]
      else line :: cap_lines max_length (seen + String.length line) rest
  end.

Definition first_section_pipeline (content : string) (max_length : nat) : string :=
  let kept :=
    cap_lines max_length 0
      (first_block (drop_leading_blank (outside_fences false (split_lines (strip content))))) in
  truncate max_length (strip (join_lines kept)).

(** *** The extraction as the specification words it *)

(** A top-level heading: [#] followed by a space. *)
Definition is_top_heading (line : string) : bool := startswith "# " line.

(** The lines before the [n]-th next top-level heading, counting from 1. *)
Fixpoint before_nth_heading (n : nat) (lines : list string) : list string :=
  match lines with
  | [] => []
  | line :: rest =>
      if is_top_heading line then
        match n with
        | 0 | 1 => []
        | S n' => line :: before_nth_heading n' rest
        end
      else line :: before_nth_heading n rest
  end.

(** The prefix up to but excluding the second top-level heading, fenced
    code blocks excluded, trimmed, soft-capped at [max_length]. *)
Definition summary_as_specified (content : string) (max_length : nat) : string :=
  let body := outside_fences false (before_nth_heading 2 (split_lines content)) in
  truncate max_length (strip (join_lines body)).

End ResultProcessor.

(** ** Concrete stores and inputs used by the examples below *)

Module Examples.

(** A document task with three attempts allowed. *)
Definition row (task_id : string) (created : datetime) (st : TaskStatus)
    (n : Z) (next_retry : option datetime) : Task :=
  mkTask task_id "document" "X" (Some "Y") None None st n 3 None next_retry
    created (Some created) None None (Some ("/data/outputs/" +:+ task_id))
    None None None None.

(** Two queued tasks created at the same instant, ["b"] stored first. *)
Definition tie_store : Store :=
  mkStore [row "b" 0 QUEUED 0 None; row "a" 0 QUEUED 0 None] [].

(** A task waiting for a retry that is due. *)
Definition retry_store : Store :=
  mkStore [row "a" 0 RETRY 1 (Some 70000000)] [].

(** A completed task. *)
Definition done_store : Store :=
  mkStore [mkTask "a" "document" "X" (Some "Y") None None COMPLETED 1 3 None
             None 0 (Some 0) (Some 1) (Some 2) None None None None None] [].

(** A task in its first run. *)
Definition running_store : Store :=
  mkStore [row "a" 0 RUNNING 1 None] [].

(** A freshly queued task. *)
Definition queued_store : Store :=
  mkStore [row "a" 0 QUEUED 0 None] [].

(** A child that never exits by itself and ignores SIGTERM. *)
Definition hanging : ClaudeRunner.Process :=
  ClaudeRunner.mkProcess None 0 "" "" None None.

Definition world (sp : ClaudeRunner.Spawn) : Worker.World :=
  Worker.mkWorld 10 11 12 sp 13 (inr (Worker.mkProcessingResult None None false))
    14 (1 # 2).

Definition nl : string := String ResultProcessor.newline EmptyString.

(** A title, a second-level heading and a paragraph. *)
Definition nested_headings : string :=
  "# T" +:+ nl +:+ "## S" +:+ nl +:+ "body".


(** A child that exits with code 1 after ten seconds. *)
Definition failing : ClaudeRunner.Process :=
  ClaudeRunner.mkProcess (Some 10) 1 "" "quota exceeded" None None.


End Examples.

(** ** core/result_processor.py: files, uploads and delivery *)

Module ResultDelivery.
Import ResultProcessor.

(** The regular files of the outputs directory, name and text, in the order
    [glob] lists them. *)
Definition Directory := list (string * string).

(** [s.endswith(suffix)]; a name matches the pattern [*.ext] when it ends
    with [.ext]. *)
Definition endswith (suffix s : string) : bool :=
  let n := String.length s in
  let k := String.length suffix in
  (k <=? n)%nat && String.eqb (substring (n - k) k s) suffix.

(** [outputs_path.glob("*" + ext)] *)
Definition glob_suffix (ext : string) (files : Directory) : Directory :=
  filter (fun f => endswith ext (fst f) = true) files.

(** The first name of [names] that exists in the directory. *)
Fixpoint first_existing (names : list string) (files : Directory)
    : option (string * string) :=
  match names with
  | [] => None
  | n :: ns =>
      match List.find (fun f => String.eqb (fst f) n) files with
      | Some f => Some f
      | None => first_existing ns files
      end
  end.

Definition summary_files : list string :=
  ["README.md"; "summary.md"; "report.md"; "output.md"; "result.md"].

(** [_extract_summary] *)
Definition _extract_summary (files : Directory) (claude_output : option string)
    : option string :=
  match first_existing summary_files files with
  | Some f => Some (_extract_first_section (snd f) 500)
  | None =>
      match glob_suffix ".md" files with
      | f :: _ => Some (_extract_first_section (snd f) 500)
      | [] =>
          match claude_output with
          | Some o =>
              if String.eqb o "" then None
              else Some (_extract_first_section o 500)
          | None => None
          end
      end
  end.

Definition main_candidates : list string :=
  ["report.pdf"; "report.md"; "output.pdf"; "output.md"; "README.md"; "summary.md"].

(** [_find_main_output]: the name of the file to attach. *)
Definition _find_main_output (files : Directory) : option string :=
  match first_existing main_candidates files with
  | Some f => Some (fst f)
  | None =>
      match glob_suffix ".pdf" files with
      | f :: _ => Some (fst f)
      | [] =>
          match glob_suffix ".md" files with
          | f :: _ => Some (fst f)
          | [] => None
          end
      end
  end.

(** *** The URL patterns *)

(** The longest prefix of [s] without a whitespace character: [[^\s]+]. *)
Fixpoint take_nonspace (s : string) : string :=
  match s with
  | EmptyString => EmptyString
  | String c s' => if isspace c then EmptyString else String c (take_nonspace s')
  end.

(** [s] without its prefix [p], when it starts with [p]. *)
Fixpoint drop_prefix (p s : string) : option string :=
  match p, s with
  | EmptyString, _ => Some s
  | String a p', String b s' => if Ascii.eqb a b then drop_prefix p' s' else None
  | String _ _, EmptyString => None
  end.

(** A match of [prefix] followed by [[^\s]+] at the start of [s]. *)
Definition match_at (prefix s : string) : option string :=
  match drop_prefix prefix s with
  | Some rest =>
      match take_nonspace rest with
      | EmptyString => None
      | m => Some (prefix +:+ m)
      end
  | None => None
  end.

(** [re.search(prefix + "[^\s]+", s)]: the leftmost match, [group(0)]. *)
Fixpoint search_url (prefix s : string) : option string :=
  match match_at prefix s with
  | Some m => Some m
  | None =>
      match s with
      | EmptyString => None
      | String _ s' => search_url prefix s'
      end
  end.

(** *** The upload commands *)

(** What running a command line gives. *)
Inductive CliRun :=
  | CliNotFound
  | CliRaises (msg : string)
  | CliExit (returncode : Z) (stdout stderr : string).

Record UploadResult := mkUploadResult {
  success : bool;
  url : option string;
  error : option string
}.

Definition upload_failed (msg : string) : UploadResult :=
  mkUploadResult false None (Some msg).

(** [stderr.decode() if stderr else f"Exit code {returncode}"] *)
Definition cli_error (returncode : Z) (stderr : string) : string :=
  if String.eqb stderr "" then "Exit code " +:+ str_int returncode else stderr.

(** The upload loop; [Some] is the early [return] of a failure. *)
Fixpoint upload_each (run : list string -> CliRun) (command : string -> list string)
    (not_found : string) (names : list string) : option UploadResult :=
  match names with
  | [] => None
  | name :: rest =>
      match run (command name) with
      | CliNotFound => Some (upload_failed not_found)
      | CliRaises msg => Some (upload_failed msg)
      | CliExit returncode _ stderr =>
          if returncode =? 0 then upload_each run command not_found rest
          else Some (upload_failed (cli_error returncode stderr))
      end
  end.

(** The files that are uploaded: those whose name does not start with a dot. *)
Definition visible_names (files : Directory) : list string :=
  filter (fun n => startswith "." n = false) (map fst files).

(** The common course of both uploads after the file list is known. *)
Definition upload_then_share (run : list string -> CliRun)
    (command : string -> list string) (share : list string)
    (not_found url_prefix fallback : string) (names : list string)
    : UploadResult :=
  match names with
  | [] => upload_failed "No files to upload"
  | _ =>
      match upload_each run command not_found names with
      | Some failure => failure
      | None =>
          match run share with
          | CliNotFound => upload_failed not_found
          | CliRaises msg => upload_failed msg
          | CliExit returncode stdout _ =>
              mkUploadResult true
                (Some (if returncode =? 0 then
                         match search_url url_prefix stdout with
                         | Some m => m
                         | None => fallback
                         end
                       else fallback))
                None
          end
      end
  end.

(** [_upload_to_gdrive]; [outputs_path] is the directory of [files]. *)
Definition _upload_to_gdrive (run : list string -> CliRun) (outputs_path : string)
    (files : Directory) (folder task_id : string) : UploadResult :=
  let target_folder := folder +:+ "/" +:+ task_id in
  upload_then_share run
    (fun name => ["gdcli"; "upload"; outputs_path +:+ "/" +:+ name; target_folder])
    ["gdcli"; "share"; target_folder; "--anyone"; "--role"; "reader"]
    "gdcli not found. Is pi-skills installed?"
    "https://drive.google.com/" ("gdrive://" +:+ target_folder)
    (visible_names files).

(** [_upload_to_onedrive] *)
Definition _upload_to_onedrive (run : list string -> CliRun) (outputs_path : string)
    (files : Directory) (folder task_id : string) : UploadResult :=
  let target_folder := folder +:+ "/" +:+ task_id in
  upload_then_share run
    (fun name =>
       ["onedrive"; "cp"; outputs_path +:+ "/" +:+ name; target_folder +:+ "/" +:+ name])
    ["onedrive"; "chmod"; target_folder; "+r"]
    "onedrive-cli not found. Is it installed?"
    "https://" ("onedrive://" +:+ target_folder)
    (visible_names files).

(** *** [process] *)

Record NotificationResult := mkNotificationResult {
  sent : bool;
  notification_failure : option string
}.

Record ProcessingResult := mkProcessingResult {
  summary : option string;
  cloud_links : option (list (string * string));
  upload_errors : option (list string);
  notification_sent : bool;
  notification_error : option string
}.

(** [x in (a, "both")] *)
Definition selects (sink storage : string) : bool :=
  String.eqb storage sink || String.eqb storage "both".

(** The text an f-string gives for an optional value. *)
Definition format_optional (x : option string) : string :=
  match x with
  | Some v => v
  | None => "None"
  end.

(** The links and errors of one sink, added to what is there. An upload
    that succeeded carries its URL. *)
Definition record_upload (key label : string) (upload : UploadResult)
    (acc : list (string * string) * list string)
    : list (string * string) * list string :=
  if success upload then
    match url upload with
    | Some u => (fst acc ++ [(key, u)], snd acc)
    | None => acc
    end
  else (fst acc, snd acc ++ [label +:+ ": " +:+ format_optional (error upload)]).

(** The uploads of [process] for a non-empty [storage] text. *)
Definition upload_all (run : list string -> CliRun) (outputs : string)
    (files : Directory) (folder task_id storage : string)
    : list (string * string) * list string :=
  let acc0 := ([], []) in
  let acc1 :=
    if selects "google_drive" storage then
      record_upload "google_drive" "Google Drive"
        (_upload_to_gdrive run outputs files folder task_id) acc0
    else acc0 in
  if selects "onedrive" storage then
    record_upload "onedrive" "OneDrive"
      (_upload_to_onedrive run outputs files folder task_id) acc1
  else acc1.

(** [process]; [None] is the [TypeError] of [Path(None)]. The [delivery]
    object holds its three keys, as [model_dump] writes it, so
    [get("folder", default)] reads the stored value. [notify] is
    [_send_email], given the summary and the links. *)
Definition process (run : list string -> CliRun)
    (notify : option string -> option (list (string * string)) -> NotificationResult)
    (files : Directory) (task : Task) (claude_output : option string)
    : option ProcessingResult :=
  match outputs_path task with
  | None => None
  | Some outputs =>
      let summary := _extract_summary files claude_output in
      match delivery task with
      | None => Some (mkProcessingResult summary None None false None)
      | Some d =>
          let uploads :=
            match storage d with
            | None => None
            | Some st =>
                if String.eqb st "" then None
                else
                  Some (upload_all run outputs files (format_optional (folder d))
                          (tid task) st)
            end in
          let links := fst <$> uploads in
          let errors := snd <$> uploads in
          match email d with
          | Some to_ =>
              if String.eqb to_ "" then
                Some (mkProcessingResult summary links errors false None)
              else
                let n := notify summary links in
                Some (mkProcessingResult summary links errors
                        (sent n) (notification_failure n))
          | None => Some (mkProcessingResult summary links errors false None)
          end
      end
  end.

End ResultDelivery.

(** ** api/models.py: the validators of a submission *)

Module ApiModels.
Import ResultProcessor.

Definition ALLOWED_ATTACHMENT_TYPES : list string :=
  ["pdf"; "docx"; "doc"; "txt"; "md"; "csv"; "json"; "png"; "jpg"; "jpeg"; "gif"].

(** [c.lower()] for code points below 256. *)
Definition lower_char (c : ascii) : ascii :=
  let n := nat_of_ascii c in
  if ((65 <=? n) && (n <=? 90))%nat
     || (((192 <=? n) && (n <=? 222))%nat && negb (n =? 215)%nat)
  then ascii_of_nat (n + 32) else c.

Fixpoint lower (s : string) : string :=
  match s with
  | EmptyString => EmptyString
  | String c s' => String (lower_char c) (lower s')
  end.

(** [s.rsplit(".", 1)[-1]] when ["." in s]. *)
Fixpoint after_last_dot (s : string) : option string :=
  match s with
  | EmptyString => None
  | String c s' =>
      match after_last_dot s' with
      | Some e => Some e
      | None => if Ascii.eqb c "."%char then Some s' else None
      end
  end.

(** The extension [validate_attachments] tests. *)
Definition extension (attachment : string) : string :=
  match after_last_dot attachment with
  | Some e => lower e
  | None => EmptyString
  end.

Definition is_allowed (ext : string) : bool :=
  existsb (String.eqb ext) ALLOWED_ATTACHMENT_TYPES.

(** The loop of [validate_attachments]; [Some] is the text of the error. *)
Fixpoint first_unsupported (v : list string) : option string :=
  match v with
  | [] => None
  | attachment :: rest =>
      if is_allowed (extension attachment) then first_unsupported rest
      else Some ("Unsupported file type: " +:+ extension attachment)
  end.

(** [validate_attachments]; [inl] is the [ValueError]. *)
Definition validate_attachments (v : option (list string))
    : string + option (list string) :=
  match v with
  | None => inr None
  | Some l =>
      match first_unsupported l with
      | Some msg => inl msg
      | None => inr (Some l)
      end
  end.

(** [title_not_empty], after the [max_length=200] of the field. *)
Definition validate_title (v : string) : string + string :=
  if (200 <? String.length v)%nat then
    inl "String should have at most 200 characters"
  else if String.eqb (strip v) "" then inl "title cannot be empty"
  else inr (strip v).

(** [description_not_empty] *)
Definition description_not_empty (v : string) : string + string :=
  if String.eqb (strip v) "" then inl "description cannot be empty"
  else inr (strip v).

(** [validate_storage] *)
Definition validate_storage (v : option string) : string + option string :=
  match v with
  | None => inr None
  | Some st =>
      if String.eqb st "google_drive" || String.eqb st "onedrive" then inr v
      else inl "storage must be 'google_drive' or 'onedrive'"
  end.

End ApiModels.

(** ** api/routes.py *)

Module Routes.

(** What an endpoint answers: a value, or an [HTTPException]. *)
Inductive Response (A : Type) :=
  | Answer (a : A)
  | HTTPException (status_code : Z) (error code : string).

Arguments Answer {A} a.
Arguments HTTPException {A} status_code error code.

Definition not_found {A} (task_id : string) : Response A :=
  HTTPException 404 ("Task " +:+ task_id +:+ " not found") "TASK_NOT_FOUND".

(** [get_task]: the stored task or 404. *)
Definition get_task (task_id : string) (q : Store) : Response Task :=
  match TaskQueue.get_task task_id q with
  | None => not_found task_id
  | Some task => Answer task
  end.

(** [cancel_task]; [alive] tells whether the child still runs when it is
    signalled. *)
Definition cancel_task (now : datetime) (alive : bool) (task_id : string)
    (q : Store) (r : ClaudeRunner.Runner)
    : Response unit * Store * ClaudeRunner.Runner :=
  match TaskQueue.get_task task_id q with
  | None => (not_found task_id, q, r)
  | Some task =>
      if TaskQueue.is_terminal (status task) then
        (HTTPException 409 "Cannot cancel completed task" "TASK_ALREADY_COMPLETED", q, r)
      else
        let '(cancelled, q') := TaskQueue.cancel now task_id q in
        if negb cancelled then
          (HTTPException 409 "Failed to cancel task" "TASK_ALREADY_COMPLETED", q', r)
        else if bool_decide (status task = RUNNING) then
          (Answer tt, q', snd (ClaudeRunner.cancel_task task_id alive r))
        else (Answer tt, q', r)
  end.

(** [list_tasks]: the page and the total; [page >= 1] and
    [1 <= page_size <= 100] are checked by the query parameters. *)
Definition list_tasks (filter_status : option TaskStatus) (page page_size : nat)
    (q : Store) : list Task * Z :=
  let offset := ((page - 1) * page_size)%nat in
  TaskQueue.list_tasks filter_status page_size offset q.

End Routes.

(** * Properties *)

(** ** Rows and tables *)

Section Tables.
Import TaskQueue.

Lemma select_by_id_update (f : Task -> Task) task_id rows :
  (forall t, tid (f t) = tid t) ->
  select_by_id task_id (update_by_id task_id f rows)
  = f <$> select_by_id task_id rows.
Proof.
  intros Hf. unfold select_by_id, update_by_id.
  induction rows as [|t rows IH]; simpl; [reflexivity|].
  destruct (String.eqb (tid t) task_id) eqn:E; simpl.
  - rewrite Hf, E. reflexivity.
  - rewrite E. exact IH.
Qed.

Lemma select_by_id_Some task_id rows t :
  select_by_id task_id rows = Some t -> t ∈ rows /\ tid t = task_id.
Proof.
  unfold select_by_id. intros H. apply find_some in H as [Hin Heq].
  split; [by apply list_elem_of_In | by apply String.eqb_eq].
Qed.

Lemma select_by_id_None task_id rows :
  select_by_id task_id rows = None <-> task_id ∉ (tid <$> rows).
Proof.
  unfold select_by_id. induction rows as [|t rows IH]; simpl.
  - split; [intros _ H; inversion H | reflexivity].
  - destruct (String.eqb (tid t) task_id) eqn:E.
    + apply String.eqb_eq in E. split; [discriminate|].
      intros H. exfalso. apply H. rewrite E. left.
    + apply String.eqb_neq in E. rewrite IH. rewrite not_elem_of_cons.
      split; [intros H; split; [congruence | exact H] | intros [_ H]; exact H].
Qed.

Lemma update_by_id_other (f : Task -> Task) task_id rows u :
  (forall t, tid (f t) = tid t) ->
  tid u <> task_id -> (u ∈ update_by_id task_id f rows <-> u ∈ rows).
Proof.
  intros Hf Hu. unfold update_by_id. induction rows as [|t rows IH]; simpl.
  - reflexivity.
  - rewrite !elem_of_cons, IH.
    destruct (String.eqb (tid t) task_id) eqn:E.
    + apply String.eqb_eq in E.
      split; (intros [->|H]; [exfalso | right; exact H]).
      * apply Hu. rewrite Hf. exact E.
      * apply Hu. exact E.
    + reflexivity.
Qed.

Lemma update_by_id_elem (f : Task -> Task) task_id rows t :
  t ∈ rows -> tid t = task_id -> f t ∈ update_by_id task_id f rows.
Proof.
  intros Hin Ht. unfold update_by_id. apply list_elem_of_fmap.
  exists t. split; [|exact Hin].
  apply String.eqb_eq in Ht. rewrite Ht. reflexivity.
Qed.

End Tables.

(** ** The transition operators of the queue *)

Section Transitions.
Import TaskQueue.

Variable cfg : Settings.

(** C1. For a task that is in the store, [mark_failed] returns the new
    status, which is the status of the stored task afterwards, and records
    the error; with [retry] and attempts left the status is RETRY and the
    next retry is due at [now] plus the computed delay; otherwise the
    status is DEAD under [retry] and FAILED without it, and the completion
    time is [now]. *)
Theorem mark_failed_transition now u task_id err retry s task :
  select_by_id task_id (tasks s) = Some task ->
  exists new_status s' task',
    mark_failed cfg now u task_id err retry s = inr (new_status, s')
    /\ select_by_id task_id (tasks s') = Some task'
    /\ status task' = new_status
    /\ last_error task' = Some err
    /\ if retry && (attempts task <? max_attempts task) then
         new_status = RETRY
         /\ next_retry_at task'
            = Some (now + timedelta_seconds
                            (_calculate_retry_delay cfg (attempts task) u))
       else
         new_status = (if retry then DEAD else FAILED)
         /\ completed_at task' = Some now.
Proof.
  intros Hsel. unfold mark_failed. rewrite Hsel.
  destruct (retry && (attempts task <? max_attempts task)) eqn:Hbranch.
  - eexists _, _, _. split; [reflexivity|]. cbn [tasks _log_event].
    rewrite select_by_id_update, Hsel by reflexivity.
    split; [reflexivity|]. repeat split; reflexivity.
  - eexists _, _, _. split; [reflexivity|]. cbn [tasks _log_event].
    rewrite select_by_id_update, Hsel by reflexivity.
    split; [reflexivity|]. repeat split; reflexivity.
Qed.

(** C8. [cancel] on a stored task that is not COMPLETED, DEAD or FAILED
    returns true, makes it FAILED with the error "Cancelled by user" and
    the completion time [now], and appends one [task_cancelled] log entry;
    on a task in one of these three statuses it returns false and the
    store, tasks and logs, is unchanged. *)
Theorem cancel_transition now task_id s task :
  select_by_id task_id (tasks s) = Some task ->
  (status task <> COMPLETED /\ status task <> DEAD /\ status task <> FAILED ->
     exists s' task' entry,
       cancel now task_id s = (true, s')
       /\ select_by_id task_id (tasks s') = Some task'
       /\ status task' = FAILED
       /\ last_error task' = Some "Cancelled by user"
       /\ completed_at task' = Some now
       /\ task_logs s' = task_logs s ++ [entry]
       /\ event entry = "task_cancelled"
       /\ log_task_id entry = task_id)
  /\ (status task = COMPLETED \/ status task = DEAD \/ status task = FAILED ->
        cancel now task_id s = (false, s)).
Proof.
  intros Hsel. unfold cancel. rewrite Hsel. split.
  - intros (Hc & Hd & Hf).
    assert (is_terminal (status task) = false) as ->
      by (destruct (status task); try reflexivity; congruence).
    eexists _, _, _. split; [reflexivity|]. cbn [tasks task_logs _log_event].
    rewrite select_by_id_update, Hsel by reflexivity.
    repeat split; reflexivity.
  - intros [H|[H|H]]; rewrite H; reflexivity.
Qed.

(** C10. For an id that no stored task has, [cancel] returns false and
    leaves the store, tasks and logs, as it is, while [mark_failed] raises
    [ValueError] and returns no status. *)
Theorem unknown_id_cancel_vs_mark_failed now u task_id err retry s :
  task_id ∉ (tid <$> tasks s) ->
  cancel now task_id s = (false, s)
  /\ mark_failed cfg now u task_id err retry s
     = inl (ValueError ("Task " +:+ task_id +:+ " not found")).
Proof.
  intros H. apply select_by_id_None in H.
  unfold cancel, mark_failed. rewrite H. split; reflexivity.
Qed.

(** C4, as the code has it. [mark_processing] makes the stored task
    PROCESSING whatever its status was, changes no other column of it and
    no task with another id, and appends one [task_processing] log
    entry. *)
Theorem mark_processing_unconditional now task_id s task :
  select_by_id task_id (tasks s) = Some task ->
  let s' := mark_processing now task_id s in
  select_by_id task_id (tasks s') = Some (set_status PROCESSING task)
  /\ status (set_status PROCESSING task) = PROCESSING
  /\ (forall u, tid u <> task_id -> (u ∈ tasks s' <-> u ∈ tasks s))
  /\ exists entry,
       task_logs s' = task_logs s ++ [entry]
       /\ event entry = "task_processing"
       /\ log_task_id entry = task_id.
Proof.
  intros Hsel s'. subst s'. unfold mark_processing. cbn [tasks task_logs _log_event].
  rewrite select_by_id_update, Hsel by reflexivity.
  split; [reflexivity|]. split; [reflexivity|]. split.
  - intros u Hu. by apply update_by_id_other.
  - eexists. repeat split; reflexivity.
Qed.

End Transitions.

(** C1 at a task in its first run of three. *)
Lemma mark_failed_transition_witness :
  exists new_status s' task',
    TaskQueue.mark_failed default_settings 5 (1 # 2) "a" "boom" true
      Examples.running_store = inr (new_status, s')
    /\ TaskQueue.select_by_id "a" (tasks s') = Some task'
    /\ status task' = new_status
    /\ last_error task' = Some "boom"
    /\ new_status = RETRY
    /\ next_retry_at task' = Some (5 + timedelta_seconds 126).
Proof.
  exact (mark_failed_transition default_settings 5 (1 # 2) "a" "boom" true
           Examples.running_store _ eq_refl).
Defined.

(** C8 at a running task. *)
Lemma cancel_transition_witness :
  exists s' task' entry,
    TaskQueue.cancel 5 "a" Examples.running_store = (true, s')
    /\ TaskQueue.select_by_id "a" (tasks s') = Some task'
    /\ status task' = FAILED
    /\ last_error task' = Some "Cancelled by user"
    /\ completed_at task' = Some 5
    /\ task_logs s' = task_logs Examples.running_store ++ [entry]
    /\ event entry = "task_cancelled"
    /\ log_task_id entry = "a".
Proof.
  apply (proj1 (cancel_transition 5 "a" Examples.running_store _ eq_refl)).
  repeat split; discriminate.
Defined.

(** C10 at the empty store. *)
Lemma unknown_id_cancel_vs_mark_failed_witness :
  TaskQueue.cancel 5 "zz" empty_store = (false, empty_store)
  /\ TaskQueue.mark_failed default_settings 5 (1 # 2) "zz" "boom" true empty_store
     = inl (TaskQueue.ValueError "Task zz not found").
Proof.
  apply (unknown_id_cancel_vs_mark_failed default_settings 5 (1 # 2) "zz" "boom"
           true empty_store).
  intros H. inversion H.
Defined.

(** C4 as stated fails: a COMPLETED task is made PROCESSING. *)
Lemma mark_processing_from_completed :
  TaskQueue.select_by_id "a" (tasks Examples.done_store) <> None
  /\ status <$> TaskQueue.select_by_id "a" (tasks Examples.done_store)
     = Some COMPLETED
  /\ status <$> TaskQueue.select_by_id "a"
                  (tasks (TaskQueue.mark_processing 9 "a" Examples.done_store))
     = Some PROCESSING.
Proof. repeat split; [discriminate]. Qed.

(** C4, as the code has it, at a completed task. *)
Lemma mark_processing_unconditional_witness :
  status <$> TaskQueue.select_by_id "a"
               (tasks (TaskQueue.mark_processing 9 "a" Examples.done_store))
  = Some PROCESSING.
Proof.
  pose proof (mark_processing_unconditional 9 "a" Examples.done_store _ eq_refl)
    as [H _].
  rewrite H. reflexivity.
Defined.

(** ** Selection by [dequeue] *)

Section Dequeue.
Import TaskQueue.

Lemma eligible_claimable now t : eligible now t = true <-> claimable now t.
Proof.
  unfold eligible, claimable.
  rewrite orb_true_iff, andb_true_iff, !bool_decide_eq_true.
  destruct (next_retry_at t) as [d|].
  - rewrite Z.leb_le. split.
    + intros [H|[H1 H2]]; [left; exact H | right; eauto].
    + intros [H|[H1 (d' & [= <-] & H2)]]; [left; exact H | right; eauto].
  - split.
    + intros [H|[_ H]]; [left; exact H | discriminate].
    + intros [H|[_ (d' & H & _)]]; [left; exact H | discriminate].
Qed.

Lemma elem_of_insert_by_created_at t x l :
  t ∈ insert_by_created_at x l <-> t = x \/ t ∈ l.
Proof.
  induction l as [|u l IH]; simpl.
  - rewrite elem_of_cons. reflexivity.
  - destruct (created_at x <=? created_at u).
    + rewrite elem_of_cons. reflexivity.
    + rewrite !elem_of_cons, IH. tauto.
Qed.

Lemma elem_of_order_by_created_at t l :
  t ∈ order_by_created_at l <-> t ∈ l.
Proof.
  induction l as [|x l IH]; simpl; [reflexivity|].
  rewrite elem_of_insert_by_created_at, elem_of_cons, IH. reflexivity.
Qed.

(** The head of the ordered rows is one of the oldest. *)
Lemma head_order_by_created_at_oldest l t :
  head (order_by_created_at l) = Some t ->
  forall u, u ∈ l -> created_at t <= created_at u.
Proof.
  revert t. induction l as [|x l IH]; intros t Hhd u Hu.
  - inversion Hu.
  - simpl in Hhd. destruct (order_by_created_at l) as [|h tl] eqn:Hsorted.
    + simpl in Hhd. injection Hhd as <-.
      apply elem_of_cons in Hu as [->|Hu]; [lia|].
      apply elem_of_order_by_created_at in Hu. rewrite Hsorted in Hu. inversion Hu.
    + simpl in Hhd. pose proof (IH h eq_refl) as Hmin.
      destruct (created_at x <=? created_at h) eqn:Hle; simpl in Hhd;
        injection Hhd as <-.
      * apply Z.leb_le in Hle.
        apply elem_of_cons in Hu as [->|Hu]; [lia|].
        specialize (Hmin u Hu). lia.
      * apply Z.leb_gt in Hle.
        apply elem_of_cons in Hu as [->|Hu]; [lia|].
        exact (Hmin u Hu).
Qed.

Lemma head_elem_of {A} (l : list A) x : head l = Some x -> x ∈ l.
Proof. destruct l; [discriminate|]. intros [= ->]. left. Qed.

(** C2, as the code has it. [dequeue] takes a task only if it is QUEUED,
    or in RETRY with its retry time reached; the task it takes is one
    with the earliest creation time among these (the query orders by
    creation time alone); that task becomes RUNNING, started at [now],
    with one attempt more, and no task with another id changes; when no
    task qualifies it returns nothing and the store is unchanged. *)
Theorem dequeue_takes_oldest_claimable now s :
  match dequeue now s with
  | (None, s') => s' = s /\ forall t, t ∈ tasks s -> ~ claimable now t
  | (Some task, s') =>
      exists t0,
        t0 ∈ tasks s
        /\ claimable now t0
        /\ (forall u, u ∈ tasks s -> claimable now u ->
              created_at t0 <= created_at u)
        /\ tid task = tid t0
        /\ status task = RUNNING
        /\ started_at task = Some now
        /\ attempts task = attempts t0 + 1
        /\ task ∈ tasks s'
        /\ (forall u, tid u <> tid t0 -> (u ∈ tasks s' <-> u ∈ tasks s))
  end.
Proof.
  unfold dequeue.
  destruct (head (order_by_created_at
                    (filter (fun t => eligible now t = true) (tasks s))))
    as [t0|] eqn:Hhd.
  - pose proof (head_elem_of _ _ Hhd) as Hin.
    apply elem_of_order_by_created_at, list_elem_of_filter in Hin as [Hel Hin].
    exists t0. split; [exact Hin|]. split; [by apply eligible_claimable|].
    split.
    { intros u Hu Hcl. apply (head_order_by_created_at_oldest _ _ Hhd).
      apply list_elem_of_filter. split; [by apply eligible_claimable | exact Hu]. }
    repeat (split; [reflexivity|]). cbn [tasks _log_event]. split.
    + by apply update_by_id_elem.
    + intros u Hu. by apply update_by_id_other.
  - split; [reflexivity|]. intros t Hin Hcl.
    destruct (order_by_created_at
                (filter (fun t => eligible now t = true) (tasks s)))
      as [|h tl] eqn:Hsorted; [|discriminate].
    assert (t ∈ order_by_created_at
                  (filter (fun t => eligible now t = true) (tasks s))) as Ht.
    { apply elem_of_order_by_created_at, list_elem_of_filter.
      split; [by apply eligible_claimable | exact Hin]. }
    rewrite Hsorted in Ht. inversion Ht.
Qed.

End Dequeue.

(** C2 as stated fails: of two claimable tasks created at the same instant,
    [dequeue] takes ["b"], although ["a"] has the smaller id. *)
Lemma dequeue_tie_not_broken_by_id :
  exists task s',
    TaskQueue.dequeue 5 Examples.tie_store = (Some task, s')
    /\ tid task = "b"
    /\ exists u,
         u ∈ tasks Examples.tie_store
         /\ TaskQueue.eligible 5 u = true
         /\ created_at u = created_at task
         /\ String.ltb (tid u) (tid task) = true.
Proof.
  eexists _, _. split; [reflexivity|]. split; [reflexivity|].
  exists (Examples.row "a" 0 QUEUED 0 None).
  split; [right; left|]. repeat split; reflexivity.
Qed.

(** ** The retry time and the RETRY status *)

Section RetryInvariant.
Import TaskQueue.

Variable cfg : Settings.

Lemma Forall_update_by_id (P : Task -> Prop) task_id f rows :
  (forall t, P t -> P (f t)) ->
  Forall P rows -> Forall P (update_by_id task_id f rows).
Proof.
  intros Hf Hrows. unfold update_by_id. apply Forall_fmap.
  eapply Forall_impl; [exact Hrows|].
  intros t Ht. simpl. destruct (String.eqb (tid t) task_id); auto.
Qed.

Lemma apply_op_retry_is_scheduled s o :
  Forall retry_is_scheduled (tasks s) ->
  Forall retry_is_scheduled (tasks (apply_op cfg s o)).
Proof.
  intros Hs. destruct o; simpl.
  - apply Forall_app. split; [exact Hs|].
    apply Forall_singleton. intros H; discriminate H.
  - unfold dequeue.
    destruct (head _); simpl; [|exact Hs].
    apply Forall_update_by_id; [|exact Hs]. intros row _ H; discriminate H.
  - apply Forall_update_by_id; [|exact Hs]. intros row _ H; discriminate H.
  - apply Forall_update_by_id; [|exact Hs]. intros row _ H; discriminate H.
  - unfold mark_failed. destruct (select_by_id _ _) as [task|]; [|exact Hs].
    destruct (retry && _); simpl.
    + apply Forall_update_by_id; [|exact Hs]. intros row _ _; discriminate.
    + apply Forall_update_by_id; [|exact Hs].
      intros row _ H. destruct retry; discriminate H.
  - unfold cancel. destruct (select_by_id _ _) as [task|]; [|exact Hs].
    destruct (is_terminal _); simpl; [exact Hs|].
    apply Forall_update_by_id; [|exact Hs]. intros row _ H; discriminate H.
Qed.

Lemma run_retry_is_scheduled history s :
  Forall retry_is_scheduled (tasks s) ->
  Forall retry_is_scheduled (tasks (run cfg history s)).
Proof.
  revert s. induction history as [|o history IH]; intros s Hs; simpl.
  - exact Hs.
  - apply IH, apply_op_retry_is_scheduled, Hs.
Qed.

(** C3, as the code has it. After any history of [enqueue], [dequeue],
    [mark_processing], [mark_completed], [mark_failed] and [cancel] calls
    on the empty store, every task in RETRY has its retry time set. *)
Theorem retry_has_next_retry_at history :
  Forall retry_is_scheduled (tasks (run cfg history empty_store)).
Proof. apply run_retry_is_scheduled. constructor. Qed.

End RetryInvariant.

(** C3 as stated fails: [dequeue] of a task in RETRY makes it RUNNING and
    leaves its retry time set. *)
Lemma dequeue_keeps_next_retry_at :
  Forall TaskQueue.retry_iff (tasks Examples.retry_store)
  /\ ~ Forall TaskQueue.retry_iff
         (tasks (snd (TaskQueue.dequeue 80000000 Examples.retry_store))).
Proof.
  split.
  - apply Forall_singleton. split; [discriminate | reflexivity].
  - intros H. simpl in H. apply Forall_inv in H. destruct H as [_ H].
    assert (RUNNING = RETRY) as Hbad by (apply H; discriminate).
    discriminate Hbad.
Qed.

(** ** The retry delay *)

Section RetryDelay.
Import TaskQueue.

Lemma int_of_Q_floor x : (0 <= x)%Q -> int_of_Q x = Qfloor x.
Proof.
  destruct x as [n d]. unfold Qle, int_of_Q, Qfloor. simpl. intros H.
  apply Z.quot_div_nonneg; lia.
Qed.

Lemma jitter_range (d u : Q) :
  (0 <= d)%Q -> (0 <= u)%Q -> (u <= 1)%Q ->
  (d <= d + uniform 0 (d * (1 # 10)) u)%Q
  /\ (d + uniform 0 (d * (1 # 10)) u <= (11 # 10) * d)%Q.
Proof.
  intros Hd Hu0 Hu1. unfold uniform. split; nra.
Qed.

(** C7. With a base delay and a maximal delay that are not negative (60 and
    900 by default), for every attempt count [a >= 0] and every draw [u] of
    the jitter in [0, 1], the retry delay is an integer between the clamped
    delay [min(base * 2^a, maxDelay)] and 1.1 times the clamped delay. *)
Theorem retry_delay_bounds cfg a u :
  0 <= retry_base_delay_seconds cfg ->
  0 <= retry_max_delay_seconds cfg ->
  0 <= a ->
  (0 <= u)%Q -> (u <= 1)%Q ->
  let clamped :=
    Z.min (retry_base_delay_seconds cfg * 2 ^ a) (retry_max_delay_seconds cfg) in
  clamped <= _calculate_retry_delay cfg a u
  /\ (inject_Z (_calculate_retry_delay cfg a u) <= (11 # 10) * inject_Z clamped)%Q.
Proof.
  intros Hbase Hmax Ha Hu0 Hu1 clamped. unfold _calculate_retry_delay.
  fold clamped.
  assert (0 <= clamped) as Hc.
  { subst clamped. apply Z.min_glb; [|exact Hmax].
    apply Z.mul_nonneg_nonneg; [exact Hbase|]. apply Z.pow_nonneg. lia. }
  assert (0 <= inject_Z clamped)%Q as HcQ
    by (change 0%Q with (inject_Z 0); rewrite <- Zle_Qle; exact Hc).
  destruct (jitter_range (inject_Z clamped) u HcQ Hu0 Hu1) as [Hlo Hhi].
  rewrite int_of_Q_floor by (eapply Qle_trans; [exact HcQ | exact Hlo]).
  split.
  - rewrite <- (Qfloor_Z clamped) at 1. apply Qfloor_resp_le. exact Hlo.
  - eapply Qle_trans; [apply Qfloor_le | exact Hhi].
Qed.

End RetryDelay.

(** C7 at the defaults, after the second attempt, with the largest draw. *)
Lemma retry_delay_bounds_witness :
  240 <= TaskQueue._calculate_retry_delay default_settings 2 1
  /\ (inject_Z (TaskQueue._calculate_retry_delay default_settings 2 1)
      <= (11 # 10) * inject_Z 240)%Q.
Proof.
  apply (retry_delay_bounds default_settings 2 1); simpl; try lia;
    unfold Qle; simpl; lia.
Defined.

(** ** The worker on a failed run *)

Section WorkerFailure.
Import TaskQueue ClaudeRunner Worker.

Variable cfg : Settings.

(** The stored task after [mark_failed], when the id is in the store. *)
Lemma mark_failed_stored now u task_id err retry s stored :
  select_by_id task_id (tasks s) = Some stored ->
  exists st s',
    mark_failed cfg now u task_id err retry s = inr (st, s')
    /\ select_by_id task_id (tasks s')
       = Some (if retry && (attempts stored <? max_attempts stored) then
                 schedule_retry err
                   (now + timedelta_seconds
                            (_calculate_retry_delay cfg (attempts stored) u))
                   stored
               else fail_permanently retry err now stored).
Proof.
  intros Hsel. unfold mark_failed. rewrite Hsel.
  destruct (retry && (attempts stored <? max_attempts stored));
    eexists _, _; (split; [reflexivity|]); cbn [tasks _log_event];
    rewrite select_by_id_update, Hsel by reflexivity; reflexivity.
Qed.

(** The failure branch of [process_task] for a task that is in the store. *)
Lemma process_task_failure w task q r stored :
  select_by_id (tid task) (tasks q) = Some stored ->
  let result := fst (execute_task cfg task (start_time w) (end_time w) (spawn w) r) in
  success result = false ->
  let err := or_default (error result) "Unknown error" in
  let retry := negb (partial result) in
  select_by_id (tid task) (tasks (fst (process_task cfg w task q r)))
  = Some (if retry && (attempts stored <? max_attempts stored) then
            schedule_retry err
              (finish_time w + timedelta_seconds
                 (_calculate_retry_delay cfg (attempts stored) (draw w)))
              stored
          else fail_permanently retry err (finish_time w) stored).
Proof.
  intros Hsel result Hfail err retry. unfold process_task.
  subst result err retry.
  destruct (execute_task cfg task (start_time w) (end_time w) (spawn w) r)
    as [result r'].
  simpl in *. rewrite Hfail.
  destruct (mark_failed_stored (finish_time w) (draw w) (tid task)
              (or_default (error result) "Unknown error")
              (negb (partial result)) q stored Hsel) as (st & q' & Hmf & Hq').
  rewrite Hmf. exact Hq'.
Qed.

(** C5, as the code has it. When the agent binary is missing the runner
    returns a failure that is not partial, with the error text "Claude CLI
    not found. Is it installed?"; the worker therefore calls [mark_failed]
    with [retry = true], and the task goes to RETRY while it has attempts
    left and to DEAD otherwise, never to FAILED. *)
Theorem missing_binary_is_retried w task q r stored :
  spawn w = SpawnFileNotFound ->
  select_by_id (tid task) (tasks q) = Some stored ->
  let result := fst (execute_task cfg task (start_time w) (end_time w) (spawn w) r) in
  let q' := fst (process_task cfg w task q r) in
  success result = false
  /\ partial result = false
  /\ error result = Some "Claude CLI not found. Is it installed?"
  /\ exists task',
       select_by_id (tid task) (tasks q') = Some task'
       /\ status task'
          = (if attempts stored <? max_attempts stored then RETRY else DEAD)
       /\ status task' <> FAILED
       /\ last_error task' = Some "Claude CLI not found. Is it installed?".
Proof.
  intros Hspawn Hsel result q'.
  pose proof (process_task_failure w task q r stored Hsel) as Hq.
  subst result q'. rewrite Hspawn in *. simpl in Hq.
  repeat (split; [reflexivity|]).
  specialize (Hq eq_refl). eexists. split; [exact Hq|].
  destruct (attempts stored <? max_attempts stored);
    repeat split; try reflexivity; discriminate.
Qed.

(** The registry and the signals after a run that timed out. *)
Lemma run_claude_timeout task_id timeout p r :
  exits_within timeout (exit_after p) = false ->
  let out := _run_claude task_id timeout (Spawned p) r in
  fst out = Some (timed_out_result timeout)
  /\ signals (snd out)
     = signals r ++ (task_id, SIGTERM) ::
         (if exits_within 5 (term_after p) then [] else [(task_id, SIGKILL)])
  /\ _active_processes (snd out) !! task_id = None.
Proof.
  intros Hlate out. subst out. unfold _run_claude. rewrite Hlate.
  unfold cancel_task. cbn [_active_processes signals].
  rewrite lookup_insert_eq. cbn [fst snd pop _active_processes signals].
  split; [reflexivity|]. split; [reflexivity|].
  apply lookup_delete_eq.
Qed.

(** C6. When the child has not exited within the timeout of the task's type
    (1800, 1200 and 900 seconds for research, analysis and document with the
    default settings), the runner sends SIGTERM (and SIGKILL if the child
    does not exit within 5 seconds), drops the child from its registry and
    returns a failure with the error "Execution timed out after N seconds",
    N the timeout, marked partial; the worker then makes the task FAILED
    with its completion time set. *)
Theorem timeout_marks_failed w task q r p stored :
  spawn w = Spawned p ->
  exits_within (get_task_timeout cfg (type_ task)) (exit_after p) = false ->
  select_by_id (tid task) (tasks q) = Some stored ->
  let N := get_task_timeout cfg (type_ task) in
  let msg := "Execution timed out after " +:+ str_int N +:+ " seconds" in
  let out := execute_task cfg task (start_time w) (end_time w) (spawn w) r in
  let q' := fst (process_task cfg w task q r) in
  success (fst out) = false
  /\ error (fst out) = Some msg
  /\ partial (fst out) = true
  /\ signals (snd out)
     = signals r ++ (tid task, SIGTERM) ::
         (if exits_within 5 (term_after p) then [] else [(tid task, SIGKILL)])
  /\ _active_processes (snd out) !! tid task = None
  /\ (exists task',
        select_by_id (tid task) (tasks q') = Some task'
        /\ status task' = FAILED
        /\ completed_at task' = Some (finish_time w)
        /\ last_error task' = Some msg)
  /\ get_task_timeout default_settings "research" = 1800
  /\ get_task_timeout default_settings "analysis" = 1200
  /\ get_task_timeout default_settings "document" = 900.
Proof.
  intros Hspawn Hlate Hsel N msg out q'.
  pose proof (process_task_failure w task q r stored Hsel) as Hq.
  destruct (run_claude_timeout (tid task) N p r Hlate) as (Hres & Hsig & Hreg).
  subst out q'. rewrite Hspawn in *. unfold execute_task in *. fold N in Hq |- *.
  destruct (_run_claude (tid task) N (Spawned p) r) as [res r'].
  simpl in Hres, Hsig, Hreg. subst res. cbn [fst snd] in *.
  cbn [with_duration timed_out_result success error partial] in *.
  repeat (split; [first [reflexivity | assumption]|]).
  split; [|repeat split; reflexivity].
  specialize (Hq eq_refl). eexists. split; [exact Hq|].
  repeat split; reflexivity.
Qed.

End WorkerFailure.

(** C5 as stated fails: with the binary missing, a freshly queued task that
    the worker takes ends the pass in RETRY, not in FAILED. *)
Lemma missing_binary_goes_to_retry :
  status <$> TaskQueue.select_by_id "a"
               (tasks (fst (Worker.iteration default_settings
                              (Examples.world ClaudeRunner.SpawnFileNotFound)
                              Examples.queued_store ClaudeRunner.new_runner)))
  = Some RETRY.
Proof. vm_compute. reflexivity. Qed.

(** C5, as the code has it, at a task in its first run of three. *)
Lemma missing_binary_is_retried_witness :
  status <$> TaskQueue.select_by_id "a"
               (tasks (fst (Worker.process_task default_settings
                              (Examples.world ClaudeRunner.SpawnFileNotFound)
                              (Examples.row "a" 0 RUNNING 1 None)
                              Examples.running_store ClaudeRunner.new_runner)))
  = Some RETRY.
Proof.
  destruct (missing_binary_is_retried default_settings
              (Examples.world ClaudeRunner.SpawnFileNotFound)
              (Examples.row "a" 0 RUNNING 1 None)
              Examples.running_store ClaudeRunner.new_runner _ eq_refl eq_refl)
    as (_ & _ & _ & task' & Hsel & Hst & _).
  change (tid (Examples.row "a" 0 RUNNING 1 None)) with "a" in Hsel.
  rewrite Hsel. simpl. rewrite Hst. reflexivity.
Defined.

(** C6 at a document task whose child never exits. *)
Lemma timeout_marks_failed_witness :
  status <$> TaskQueue.select_by_id "a"
               (tasks (fst (Worker.process_task default_settings
                              (Examples.world (ClaudeRunner.Spawned Examples.hanging))
                              (Examples.row "a" 0 RUNNING 1 None)
                              Examples.running_store ClaudeRunner.new_runner)))
  = Some FAILED.
Proof.
  destruct (timeout_marks_failed default_settings
              (Examples.world (ClaudeRunner.Spawned Examples.hanging))
              (Examples.row "a" 0 RUNNING 1 None)
              Examples.running_store ClaudeRunner.new_runner _ _
              eq_refl eq_refl eq_refl)
    as (_ & _ & _ & _ & _ & (task' & Hsel & Hst & _) & _).
  change (tid (Examples.row "a" 0 RUNNING 1 None)) with "a" in Hsel.
  rewrite Hsel. simpl. rewrite Hst. reflexivity.
Defined.

(** ** The summary of a markdown text *)

Section Summary.
Import ResultProcessor.
Local Open Scope nat_scope.

Lemma total_len_snoc ls line :
  total_len (ls ++ [line]) = total_len ls + String.length line.
Proof. unfold total_len. rewrite map_app, list_sum_app. simpl. lia. Qed.

(** Once a line is kept, the loop keeps lines up to the next [#] line or
    the length cap. *)
Lemma scan_lines_kept max_length lines : forall kept in_code_block,
  kept <> [] ->
  scan_lines max_length lines kept in_code_block
  = kept ++ cap_lines max_length (total_len kept)
              (until_hash (outside_fences in_code_block lines)).
Proof.
  induction lines as [|line rest IH]; intros kept b Hkept; simpl.
  - by rewrite app_nil_r.
  - destruct (startswith fence (strip line)); [by apply IH|].
    destruct b; [by apply IH|].
    assert ((length kept =? 0) = false) as ->
      by (destruct kept; [congruence | reflexivity]).
    simpl. destruct (startswith "#" line); simpl.
    + by rewrite app_nil_r.
    + rewrite total_len_snoc.
      destruct (max_length <? total_len kept + String.length line).
      * reflexivity.
      * rewrite IH by (destruct kept; discriminate).
        rewrite total_len_snoc, <- app_assoc. reflexivity.
Qed.

(** Before a line is kept, the loop skips blank lines. *)
Lemma scan_lines_start max_length lines : forall in_code_block,
  scan_lines max_length lines [] in_code_block
  = cap_lines max_length 0
      (first_block (drop_leading_blank (outside_fences in_code_block lines))).
Proof.
  induction lines as [|line rest IH]; intros b; simpl; [reflexivity|].
  destruct (startswith fence (strip line)); [by apply IH|].
  destruct b; [by apply IH|].
  simpl. unfold is_blank.
  destruct (String.eqb (strip line) ""); [by apply IH|].
  rewrite andb_false_r. simpl.
  unfold total_len at 1. simpl. rewrite Nat.add_0_r.
  destruct (max_length <? String.length line); [reflexivity|].
  rewrite scan_lines_kept by discriminate.
  unfold total_len. simpl. rewrite Nat.add_0_r. reflexivity.
Qed.

Lemma length_append (s1 s2 : string) :
  String.length (s1 +:+ s2) = String.length s1 + String.length s2.
Proof. induction s1 as [|c s1 IH]; simpl; [reflexivity | by rewrite IH]. Qed.

Lemma length_substring_0 n (s : string) : String.length (substring 0 n s) <= n.
Proof.
  revert s. induction n as [|n IH]; intros [|c s]; simpl; try lia.
  specialize (IH s). lia.
Qed.

Lemma length_before_last_space (s p : string) :
  before_last_space s = Some p -> String.length p < String.length s.
Proof.
  revert p. induction s as [|c s IH]; intros p; simpl; [discriminate|].
  destruct (before_last_space s) as [p'|].
  - intros [= <-]. specialize (IH p' eq_refl). simpl. lia.
  - destruct (Ascii.eqb c " "); [|discriminate]. intros [= <-]. simpl. lia.
Qed.

Lemma length_rsplit_head (s : string) :
  String.length (rsplit_head s) <= String.length s.
Proof.
  unfold rsplit_head. destruct (before_last_space s) as [p|] eqn:H; [|lia].
  apply length_before_last_space in H. lia.
Qed.

Lemma length_truncate max_length (s : string) :
  String.length (truncate max_length s) <= max_length + 3.
Proof.
  unfold truncate. destruct (max_length <? String.length s) eqn:H.
  - rewrite length_append. simpl.
    pose proof (length_rsplit_head (substring 0 max_length s)).
    pose proof (length_substring_0 max_length s). lia.
  - apply Nat.ltb_ge in H. lia.
Qed.

(** C9, as the code has it. The summary is made of the lines of the trimmed
    text that lie outside fenced code blocks, from the first non-blank one
    up to but excluding the next line that starts with [#] (a heading of any
    level; the first heading when text precedes it), or up to and including
    the line with which the kept lines pass [max_length] characters; these
    are joined and trimmed, and a result longer than [max_length] is cut to
    [max_length] characters, then before its last space if it has one, and
    "..." is appended. The summary has at most [max_length + 3]
    characters. *)
Theorem extract_first_section_pipeline content max_length :
  _extract_first_section content max_length
  = first_section_pipeline content max_length
  /\ String.length (_extract_first_section content max_length) <= max_length + 3.
Proof.
  split.
  - unfold _extract_first_section, first_section_pipeline.
    rewrite scan_lines_start. reflexivity.
  - apply length_truncate.
Qed.

End Summary.

(** C9 as stated fails: the summary of a title followed by a second-level
    heading stops at that heading, while the text up to the second top-level
    heading is the whole text. *)
Lemma extract_stops_at_any_heading :
  ResultProcessor._extract_first_section Examples.nested_headings 500 = "# T"
  /\ ResultProcessor.summary_as_specified Examples.nested_headings 500
     = Examples.nested_headings
  /\ ResultProcessor._extract_first_section Examples.nested_headings 500
     <> ResultProcessor.summary_as_specified Examples.nested_headings 500.
Proof. vm_compute. repeat split. discriminate. Qed.

(** * Further properties of the queue *)

Section QueueHistory.
Import TaskQueue.

Variable cfg : Settings.

Lemma select_by_id_app task_id l1 l2 :
  select_by_id task_id (l1 ++ l2)
  = match select_by_id task_id l1 with
    | Some t => Some t
    | None => select_by_id task_id l2
    end.
Proof.
  unfold select_by_id. induction l1 as [|t l1 IH]; simpl; [reflexivity|].
  destruct (String.eqb (tid t) task_id); [reflexivity | exact IH].
Qed.

(** X1. A task enqueued under an id that is not yet in the table is what
    [get_task] returns for that id: QUEUED, no attempt made, the configured
    attempt budget, queued at [now], with its outputs directory under the
    configured root; the lookup of every other id is as before, and one
    [task_queued] log entry is appended. *)
Theorem enqueue_then_get now task_id task_type title description config
    delivery attachments correlation_id s :
  task_id ∉ (tid <$> tasks s) ->
  let out := enqueue cfg now task_id task_type title description config
               delivery attachments correlation_id s in
  get_task task_id (snd out) = Some (fst out)
  /\ status (fst out) = QUEUED
  /\ attempts (fst out) = 0
  /\ max_attempts (fst out) = max_task_attempts cfg
  /\ queued_at (fst out) = Some now
  /\ outputs_path (fst out) = Some (settings_outputs_path cfg +:+ "/" +:+ task_id)
  /\ (forall other, other <> task_id ->
        get_task other (snd out) = get_task other s)
  /\ exists entry,
       task_logs (snd out) = task_logs s ++ [entry]
       /\ event entry = "task_queued"
       /\ log_task_id entry = task_id.
Proof.
  intros Hfresh out. apply select_by_id_None in Hfresh.
  subst out. unfold enqueue, get_task. cbn [fst snd tasks task_logs _log_event].
  split.
  { rewrite select_by_id_app, Hfresh. unfold select_by_id. simpl.
    rewrite String.eqb_refl. reflexivity. }
  repeat (split; [reflexivity|]). split.
  - intros other Hother. rewrite select_by_id_app.
    destruct (select_by_id other (tasks s)); [reflexivity|].
    unfold select_by_id. simpl.
    destruct (String.eqb task_id other) eqn:E; [|reflexivity].
    apply String.eqb_eq in E. congruence.
  - eexists. repeat split; reflexivity.
Qed.

Lemma ids_update_by_id task_id f rows :
  (forall t, tid (f t) = tid t) ->
  tid <$> update_by_id task_id f rows = tid <$> rows.
Proof.
  intros Hf. unfold update_by_id. induction rows as [|t rows IH]; simpl;
    [reflexivity|].
  f_equal; [|exact IH].
  destruct (String.eqb (tid t) task_id); [apply Hf | reflexivity].
Qed.

Lemma apply_op_ids s o :
  tid <$> tasks (apply_op cfg s o) = (tid <$> tasks s) ++ enqueued_id o.
Proof.
  destruct o; simpl; rewrite ?app_nil_r.
  - rewrite fmap_app. reflexivity.
  - unfold dequeue. destruct (head _); simpl; [|reflexivity].
    by apply ids_update_by_id.
  - by apply ids_update_by_id.
  - by apply ids_update_by_id.
  - unfold mark_failed. destruct (select_by_id _ _); [|reflexivity].
    destruct (retry && _); simpl; by apply ids_update_by_id.
  - unfold cancel. destruct (select_by_id _ _); [|reflexivity].
    destruct (is_terminal _); simpl; [reflexivity|]. by apply ids_update_by_id.
Qed.

(** X2. No operation of the queue deletes a task or changes its id: after
    any history of calls the ids in the table are the ids that were there,
    in their order, followed by the ids of the [enqueue] calls in the order
    of the calls. *)
Theorem run_ids history s :
  tid <$> tasks (run cfg history s)
  = (tid <$> tasks s) ++ concat (enqueued_id <$> history).
Proof.
  unfold run. revert s. induction history as [|o history IH]; intros s; simpl.
  - by rewrite app_nil_r.
  - rewrite IH, apply_op_ids, <- app_assoc. reflexivity.
Qed.

Lemma apply_op_logs s o :
  exists extra,
    task_logs (apply_op cfg s o) = task_logs s ++ extra
    /\ (length extra <= 1)%nat
    /\ log_id <$> extra
       = (fun k => Z.of_nat (length (task_logs s)) + Z.of_nat k)
           <$> seq 1 (length extra).
Proof.
  assert (forall s' : Store, exists extra : list TaskLog,
            task_logs s' = task_logs s' ++ extra /\ (length extra <= 1)%nat
            /\ log_id <$> extra
               = (fun k => Z.of_nat (length (task_logs s')) + Z.of_nat k)
                   <$> seq 1 (length extra)) as Hnone.
  { intros s'. exists []. rewrite app_nil_r. repeat split. simpl. lia. }
  destruct o; simpl.
  - eexists [_]. repeat split. simpl. lia.
  - unfold dequeue. destruct (head _); simpl; [|apply Hnone].
    eexists [_]. repeat split. simpl. lia.
  - eexists [_]. repeat split. simpl. lia.
  - eexists [_]. repeat split. simpl. lia.
  - unfold mark_failed. destruct (select_by_id _ _); [|apply Hnone].
    destruct (retry && _); simpl; (eexists [_]; repeat split; simpl; lia).
  - unfold cancel. destruct (select_by_id _ _); [|apply Hnone].
    destruct (is_terminal _); simpl; [apply Hnone|].
    eexists [_]. repeat split. simpl. lia.
Qed.

(** X3. The log is append-only: after any history of calls the log entries
    that were there are still there, unchanged and in front, and each call
    adds at most one entry. *)
Theorem run_logs_append_only history s :
  exists extra,
    task_logs (run cfg history s) = task_logs s ++ extra
    /\ (length extra <= length history)%nat.
Proof.
  unfold run. revert s. induction history as [|o history IH]; intros s; simpl.
  - exists []. by rewrite app_nil_r.
  - destruct (apply_op_logs s o) as (e1 & He1 & Hl1 & _).
    destruct (IH (apply_op cfg s o)) as (e2 & He2 & Hl2).
    exists (e1 ++ e2). rewrite He2, He1, <- app_assoc.
    split; [reflexivity|]. rewrite length_app. lia.
Qed.



End QueueHistory.

Section QueueInvariants.
Import TaskQueue.

Variable cfg : Settings.

Lemma NoDup_ids_eq (rows : list Task) t u :
  NoDup (tid <$> rows) -> t ∈ rows -> u ∈ rows -> tid t = tid u -> t = u.
Proof.
  induction rows as [|r rows IH]; intros Hnd Ht Hu Heq; [inversion Ht|].
  rewrite fmap_cons in Hnd. apply NoDup_cons in Hnd as [Hr Hnd].
  apply elem_of_cons in Ht as [->|Ht]; apply elem_of_cons in Hu as [->|Hu].
  - reflexivity.
  - exfalso. apply Hr. rewrite Heq. apply list_elem_of_fmap. eauto.
  - exfalso. apply Hr. rewrite <- Heq. apply list_elem_of_fmap. eauto.
  - by apply IH.
Qed.

(** With unique ids, an update by id touches the one row that has the id. *)
Lemma Forall_update_one (P : Task -> Prop) f rows t0 :
  NoDup (tid <$> rows) -> t0 ∈ rows ->
  Forall P rows -> P (f t0) -> Forall P (update_by_id (tid t0) f rows).
Proof.
  intros Hnd Hin Hrows Hf. unfold update_by_id. apply Forall_fmap.
  apply Forall_forall. intros t Ht. simpl.
  destruct (String.eqb (tid t) (tid t0)) eqn:E.
  - apply String.eqb_eq in E.
    rewrite (NoDup_ids_eq rows t t0 Hnd Ht Hin E). exact Hf.
  - rewrite Forall_forall in Hrows. by apply Hrows.
Qed.

Lemma within_budget_other_status st t :
  st <> QUEUED -> st <> RETRY -> within_budget t -> within_budget (set_status st t).
Proof.
  intros Hq Hr [Hle _]. split; [exact Hle|]. simpl. intros [H|H]; congruence.
Qed.

Lemma apply_op_within_budget s o :
  1 <= max_task_attempts cfg ->
  NoDup (tid <$> tasks s) ->
  Forall within_budget (tasks s) ->
  Forall within_budget (tasks (apply_op cfg s o)).
Proof.
  intros Hmax Hnd Hs. destruct o; simpl.
  - apply Forall_app. split; [exact Hs|]. apply Forall_singleton.
    split; simpl; lia.
  - unfold dequeue.
    destruct (head _) as [t0|] eqn:Hhd; simpl; [|exact Hs].
    apply head_elem_of, elem_of_order_by_created_at, list_elem_of_filter
      in Hhd as [Hel Hin].
    apply Forall_update_one; [exact Hnd | exact Hin | exact Hs |].
    rewrite Forall_forall in Hs. destruct (Hs t0 Hin) as [_ Hlt].
    apply eligible_claimable in Hel.
    assert (attempts t0 < max_attempts t0) as Hlt'
      by (apply Hlt; destruct Hel as [H|[H _]]; auto).
    split; simpl; [lia | intros [H|H]; discriminate H].
  - apply Forall_update_by_id; [|exact Hs].
    intros row. by apply within_budget_other_status.
  - apply Forall_update_by_id; [|exact Hs].
    intros row [Hle _]. split; [exact Hle | simpl; intros [H|H]; discriminate H].
  - unfold mark_failed.
    destruct (select_by_id task_id (tasks s)) as [task|] eqn:Hsel; [|exact Hs].
    apply select_by_id_Some in Hsel as [Hin <-].
    destruct (retry && (attempts task <? max_attempts task)) eqn:Hbranch; simpl.
    + apply andb_true_iff in Hbranch as [_ Hlt]. apply Z.ltb_lt in Hlt.
      apply Forall_update_one; [exact Hnd | exact Hin | exact Hs |].
      split; simpl; [lia | intros _; exact Hlt].
    + apply Forall_update_by_id; [|exact Hs].
      intros row [Hle _]. split; [exact Hle|]. simpl.
      destruct retry; intros [H|H]; discriminate H.
  - unfold cancel.
    destruct (select_by_id task_id (tasks s)) as [task|]; [|exact Hs].
    destruct (is_terminal (status task)); simpl; [exact Hs|].
    apply Forall_update_by_id; [|exact Hs].
    intros row [Hle _]. split; [exact Hle | simpl; intros [H|H]; discriminate H].
Qed.

Lemma run_within_budget history s :
  1 <= max_task_attempts cfg ->
  NoDup ((tid <$> tasks s) ++ concat (enqueued_id <$> history)) ->
  Forall within_budget (tasks s) ->
  Forall within_budget (tasks (run cfg history s)).
Proof.
  intros Hmax. unfold run. revert s.
  induction history as [|o history IH]; intros s Hnd Hs; simpl; [exact Hs|].
  simpl in Hnd. rewrite app_assoc in Hnd.
  apply IH.
  - rewrite apply_op_ids. exact Hnd.
  - apply apply_op_within_budget; [exact Hmax | | exact Hs].
    apply NoDup_app in Hnd as [Hnd _]. apply NoDup_app in Hnd as [Hnd _].
    exact Hnd.
Qed.

(** X5. With an attempt budget of at least one and distinct ids drawn by
    the [enqueue] calls, after any history of calls on the empty store no
    task has made more attempts than its budget, and every task that is
    QUEUED or in RETRY has an attempt left. *)
Theorem attempts_within_budget history :
  1 <= max_task_attempts cfg ->
  NoDup (concat (enqueued_id <$> history)) ->
  Forall within_budget (tasks (run cfg history empty_store)).
Proof.
  intros Hmax Hnd. apply run_within_budget; [exact Hmax | exact Hnd |].
  constructor.
Qed.

Lemma apply_op_timestamps_set s o :
  Forall timestamps_set (tasks s) ->
  Forall timestamps_set (tasks (apply_op cfg s o)).
Proof.
  intros Hs. destruct o; simpl.
  - apply Forall_app. split; [exact Hs|]. apply Forall_singleton.
    split; simpl; intros H; discriminate H.
  - unfold dequeue. destruct (head _); simpl; [|exact Hs].
    apply Forall_update_by_id; [|exact Hs].
    intros row _. split; simpl; intros H; discriminate.
  - apply Forall_update_by_id; [|exact Hs].
    intros row _. split; simpl; intros H; discriminate H.
  - apply Forall_update_by_id; [|exact Hs].
    intros row _. split; simpl; intros H; discriminate.
  - unfold mark_failed. destruct (select_by_id _ _) as [task|]; [|exact Hs].
    destruct (retry && _); simpl.
    + apply Forall_update_by_id; [|exact Hs].
      intros row _. split; simpl; intros H; discriminate H.
    + apply Forall_update_by_id; [|exact Hs].
      intros row _. split; simpl; [discriminate|].
      destruct retry; intros H; discriminate H.
  - unfold cancel. destruct (select_by_id _ _) as [task|]; [|exact Hs].
    destruct (is_terminal _); simpl; [exact Hs|].
    apply Forall_update_by_id; [|exact Hs].
    intros row _. split; simpl; intros H; discriminate.
Qed.

Lemma run_timestamps_set history s :
  Forall timestamps_set (tasks s) ->
  Forall timestamps_set (tasks (run cfg history s)).
Proof.
  unfold run. revert s.
  induction history as [|o history IH]; intros s Hs; simpl; [exact Hs|].
  apply IH, apply_op_timestamps_set, Hs.
Qed.

(** X6. After any history of calls on the empty store, every task that is
    COMPLETED, FAILED or DEAD has its completion time set, and every task
    that is RUNNING has its start time set. *)
Theorem finished_and_running_timestamps history :
  Forall timestamps_set (tasks (run cfg history empty_store)).
Proof. apply run_timestamps_set. constructor. Qed.

End QueueInvariants.

(** X5 at a task that fails once and is taken again. *)
Lemma attempts_within_budget_witness :
  Forall TaskQueue.within_budget
    (tasks (TaskQueue.run default_settings
              [TaskQueue.OpEnqueue 0 "a" "document" "X" "Y" None None None None;
               TaskQueue.OpDequeue 1;
               TaskQueue.OpMarkFailed 2 (1 # 2) "a" "boom" true;
               TaskQueue.OpDequeue 200000000]
              empty_store)).
Proof.
  apply (attempts_within_budget default_settings); [simpl; lia|].
  simpl. apply NoDup_singleton.
Defined.

Section QueueCalls.
Import TaskQueue.

(** X7. A task that [dequeue] has handed out is not handed out again by the
    next [dequeue], at whatever time that one is called. *)
Theorem dequeue_not_twice now now' s task s' task2 s'' :
  dequeue now s = (Some task, s') ->
  dequeue now' s' = (Some task2, s'') ->
  tid task2 <> tid task.
Proof.
  unfold dequeue at 1.
  destruct (head _) as [t0|]; [|discriminate]. intros [= <- <-].
  unfold dequeue.
  destruct (head _) as [t1|] eqn:Hhd; [|discriminate]. intros [= <- _].
  apply head_elem_of, elem_of_order_by_created_at, list_elem_of_filter
    in Hhd as [Hel Hin].
  cbn [tasks _log_event] in Hin. unfold update_by_id in Hin.
  apply list_elem_of_fmap in Hin as (x & -> & _).
  change (tid (claim now' ?t)) with (tid t).
  change (tid (claim now t0)) with (tid t0).
  destruct (String.eqb (tid x) (tid t0)) eqn:E.
  - discriminate Hel.
  - by apply String.eqb_neq.
Qed.

(** X8. [mark_completed] makes the stored task COMPLETED whatever its
    status was, with the completion time [now] and the given summary and
    links; attempts, start time and last error stay as they were, no task
    with another id changes, and one [task_completed] log entry is
    appended. *)
Theorem mark_completed_transition now task_id summary links s task :
  select_by_id task_id (tasks s) = Some task ->
  let s' := mark_completed now task_id summary links s in
  exists task',
    select_by_id task_id (tasks s') = Some task'
    /\ status task' = COMPLETED
    /\ completed_at task' = Some now
    /\ result_summary task' = summary
    /\ cloud_links task' = links
    /\ attempts task' = attempts task
    /\ started_at task' = started_at task
    /\ last_error task' = last_error task
    /\ (forall u, tid u <> task_id -> (u ∈ tasks s' <-> u ∈ tasks s))
    /\ exists entry,
         task_logs s' = task_logs s ++ [entry]
         /\ event entry = "task_completed"
         /\ log_task_id entry = task_id.
Proof.
  intros Hsel s'. subst s'. unfold mark_completed.
  cbn [tasks task_logs _log_event].
  rewrite select_by_id_update, Hsel by reflexivity.
  eexists. split; [reflexivity|]. repeat (split; [reflexivity|]). split.
  - intros u Hu. by apply update_by_id_other.
  - eexists. repeat split; reflexivity.
Qed.

(** X9. A second [cancel] of the same id never succeeds: whatever the first
    call did, the second returns false and leaves tasks and logs as the
    first call left them. *)
Theorem cancel_twice now now' task_id s :
  cancel now' task_id (snd (cancel now task_id s))
  = (false, snd (cancel now task_id s)).
Proof.
  unfold cancel at 2 3.
  destruct (select_by_id task_id (tasks s)) as [task|] eqn:Hsel.
  - destruct (is_terminal (status task)) eqn:Hterm; cbn [snd].
    + unfold cancel. rewrite Hsel, Hterm. reflexivity.
    + unfold cancel. cbn [tasks _log_event].
      rewrite select_by_id_update, Hsel by reflexivity. reflexivity.
  - cbn [snd]. unfold cancel. rewrite Hsel. reflexivity.
Qed.

Lemma retry_delay_at_least_clamped cfg a u :
  0 <= retry_base_delay_seconds cfg ->
  0 <= retry_max_delay_seconds cfg ->
  (0 <= u)%Q -> (u <= 1)%Q ->
  Z.min (retry_base_delay_seconds cfg * 2 ^ a) (retry_max_delay_seconds cfg)
  <= _calculate_retry_delay cfg a u.
Proof.
  intros Hbase Hmax Hu0 Hu1. unfold _calculate_retry_delay.
  set (clamped := Z.min _ _).
  assert (0 <= clamped) as Hc.
  { subst clamped. apply Z.min_glb; [|exact Hmax].
    apply Z.mul_nonneg_nonneg; [exact Hbase|]. apply Z.pow_nonneg. lia. }
  assert (0 <= inject_Z clamped)%Q as HcQ
    by (change 0%Q with (inject_Z 0); rewrite <- Zle_Qle; exact Hc).
  destruct (jitter_range (inject_Z clamped) u HcQ Hu0 Hu1) as [Hlo _].
  rewrite int_of_Q_floor by (eapply Qle_trans; [exact HcQ | exact Hlo]).
  rewrite <- (Qfloor_Z clamped) at 1. apply Qfloor_resp_le. exact Hlo.
Qed.

(** X10. The backoff is respected: once [mark_failed] has put a task into
    RETRY at [now], no [dequeue] called earlier than [now] plus the clamped
    delay [min(base * 2^attempts, maxDelay)] seconds returns that task
    (base and maxDelay not negative, the draw of the jitter in [0, 1]). *)
Theorem backoff_respected cfg now u task_id err s stored s' :
  0 <= retry_base_delay_seconds cfg ->
  0 <= retry_max_delay_seconds cfg ->
  (0 <= u)%Q -> (u <= 1)%Q ->
  select_by_id task_id (tasks s) = Some stored ->
  mark_failed cfg now u task_id err true s = inr (RETRY, s') ->
  forall t task s'',
    t < now + timedelta_seconds
                (Z.min (retry_base_delay_seconds cfg * 2 ^ attempts stored)
                       (retry_max_delay_seconds cfg)) ->
    dequeue t s' = (Some task, s'') ->
    tid task <> task_id.
Proof.
  intros Hbase Hmax Hu0 Hu1 Hsel Hmf t task s'' Ht Hdq.
  pose proof (retry_delay_at_least_clamped cfg (attempts stored) u
                Hbase Hmax Hu0 Hu1) as Hdelay.
  unfold mark_failed in Hmf. rewrite Hsel in Hmf.
  destruct (true && (attempts stored <? max_attempts stored)); simpl in Hmf;
    [|discriminate]. injection Hmf as <-.
  unfold dequeue in Hdq.
  destruct (head _) as [t1|] eqn:Hhd; [|discriminate]. injection Hdq as <- _.
  apply head_elem_of, elem_of_order_by_created_at, list_elem_of_filter
    in Hhd as [Hel Hin].
  cbn [tasks _log_event] in Hin. unfold update_by_id in Hin.
  apply list_elem_of_fmap in Hin as (x & -> & _).
  change (tid (claim t ?r)) with (tid r).
  destruct (String.eqb (tid x) task_id) eqn:E.
  - exfalso. unfold eligible in Hel. simpl in Hel.
    apply Z.leb_le in Hel. unfold timedelta_seconds in *. lia.
  - by apply String.eqb_neq.
Qed.

Lemma count_status_cons st t rows :
  count_status st (t :: rows)
  = (if decide (status t = st) then 1 else 0) + count_status st rows.
Proof.
  unfold count_status. rewrite filter_cons.
  destruct (decide (status t = st)); simpl length; lia.
Qed.

(** X11. The seven counts of [get_queue_stats] add up to the number of
    stored tasks that are not PENDING: every such task is counted once, and
    PENDING tasks are not counted. *)
Theorem queue_stats_total s :
  foldr Z.add 0 (snd <$> get_queue_stats s)
  = Z.of_nat (length (filter (fun t => status t <> PENDING) (tasks s))).
Proof.
  unfold get_queue_stats. cbn [fmap list_fmap snd foldr].
  induction (tasks s) as [|t rows IH].
  - reflexivity.
  - rewrite !count_status_cons, filter_cons.
    destruct (status t) eqn:E;
      repeat match goal with
             | |- context [decide ?P] =>
                 destruct (decide P); try congruence;
                 try (exfalso;
                      match goal with H : ~ _ |- _ => apply H; discriminate end)
             end;
      simpl length; lia.
Qed.

End QueueCalls.

(** X7 at two queued tasks. *)
Lemma dequeue_not_twice_witness :
  tid (TaskQueue.claim 6 (Examples.row "a" 0 QUEUED 0 None))
  <> tid (TaskQueue.claim 5 (Examples.row "b" 0 QUEUED 0 None)).
Proof.
  eapply (dequeue_not_twice 5 6 Examples.tie_store); reflexivity.
Defined.

(** X8 at a running task. *)
Lemma mark_completed_transition_witness :
  exists task',
    TaskQueue.select_by_id "a"
      (tasks (TaskQueue.mark_completed 7 "a" (Some "done") None
                Examples.running_store)) = Some task'
    /\ status task' = COMPLETED.
Proof.
  destruct (mark_completed_transition 7 "a" (Some "done") None
              Examples.running_store _ eq_refl) as (task' & H1 & H2 & _).
  exists task'. split; assumption.
Defined.

(** X10 at a task that failed its first run at time 5 s: at 100 s the next
    [dequeue] takes the other, queued task. *)
Lemma backoff_respected_witness :
  tid (TaskQueue.claim 100000000 (Examples.row "b" 1 QUEUED 0 None)) <> "a".
Proof.
  eapply (backoff_respected default_settings 5000000 (1 # 2) "a" "boom"
            (mkStore [Examples.row "a" 0 RUNNING 1 None;
                      Examples.row "b" 1 QUEUED 0 None] [])
            (Examples.row "a" 0 RUNNING 1 None))
    with (t := 100000000).
  - simpl. lia.
  - simpl. lia.
  - unfold Qle. simpl. lia.
  - unfold Qle. simpl. lia.
  - reflexivity.
  - reflexivity.
  - vm_compute. reflexivity.
  - reflexivity.
Defined.

Section QueueReads.
Import TaskQueue.

Lemma StronglySorted_sublist {A} (R : A -> A -> Prop) (k l : list A) :
  k `sublist_of` l -> StronglySorted R l -> StronglySorted R k.
Proof.
  induction 1 as [|x k l Hsub IH|x k l Hsub IH]; intros Hl.
  - constructor.
  - apply StronglySorted_inv in Hl as [Hl Hx]. constructor; [by apply IH|].
    rewrite Forall_forall in Hx |- *. intros y Hy. apply Hx.
    by eapply elem_of_sublist.
  - apply StronglySorted_inv in Hl as [Hl _]. by apply IH.
Qed.

Lemma elem_of_insert_by_created_at_desc t x l :
  t ∈ insert_by_created_at_desc x l <-> t = x \/ t ∈ l.
Proof.
  induction l as [|u l IH]; simpl.
  - rewrite elem_of_cons. reflexivity.
  - destruct (created_at u <=? created_at x).
    + rewrite elem_of_cons. reflexivity.
    + rewrite !elem_of_cons, IH. tauto.
Qed.

Lemma elem_of_order_by_created_at_desc t l :
  t ∈ order_by_created_at_desc l <-> t ∈ l.
Proof.
  induction l as [|x l IH]; simpl; [reflexivity|].
  rewrite elem_of_insert_by_created_at_desc, elem_of_cons, IH. reflexivity.
Qed.

Lemma length_insert_by_created_at_desc x l :
  length (insert_by_created_at_desc x l) = S (length l).
Proof.
  induction l as [|u l IH]; simpl; [reflexivity|].
  destruct (created_at u <=? created_at x); simpl; [reflexivity | by rewrite IH].
Qed.

Lemma length_order_by_created_at_desc l :
  length (order_by_created_at_desc l) = length l.
Proof.
  induction l as [|x l IH]; simpl; [reflexivity|].
  by rewrite length_insert_by_created_at_desc, IH.
Qed.

Lemma insert_by_created_at_desc_sorted x l :
  StronglySorted newer_first l ->
  StronglySorted newer_first (insert_by_created_at_desc x l).
Proof.
  induction l as [|u l IH]; intros Hl; simpl.
  - repeat constructor.
  - apply StronglySorted_inv in Hl as [Hl Hu].
    destruct (created_at u <=? created_at x) eqn:E.
    + apply Z.leb_le in E. constructor; [by constructor|].
      constructor; [exact E|].
      eapply Forall_impl; [exact Hu|]. unfold newer_first. intros y Hy. lia.
    + apply Z.leb_gt in E. constructor; [by apply IH|].
      apply Forall_forall. intros y Hy.
      apply elem_of_insert_by_created_at_desc in Hy as [->|Hy].
      * unfold newer_first. lia.
      * rewrite Forall_forall in Hu. by apply Hu.
Qed.

Lemma order_by_created_at_desc_sorted l :
  StronglySorted newer_first (order_by_created_at_desc l).
Proof.
  induction l as [|x l IH]; simpl; [constructor|].
  by apply insert_by_created_at_desc_sorted.
Qed.

(** X12. A page of [list_tasks] holds stored tasks that have the requested
    status (any status without a filter), newest first; the total is the
    number of all stored tasks that match, whatever the limit and the
    offset; and the page holds [limit] tasks, or what is left of the
    matching tasks after the offset when that is less. *)
Theorem list_tasks_page filter_status limit offset s :
  let out := list_tasks filter_status limit offset s in
  (forall t, t ∈ fst out -> t ∈ tasks s /\ has_status filter_status t = true)
  /\ StronglySorted newer_first (fst out)
  /\ snd out
     = match filter_status with
       | None => Z.of_nat (length (tasks s))
       | Some st => count_status st (tasks s)
       end
  /\ length (fst out) = (limit `min` (Z.to_nat (snd out) - offset))%nat.
Proof.
  intros out. subst out. unfold list_tasks. cbn [fst snd].
  set (matching := filter _ (tasks s)). split; [|split; [|split]].
  - intros t Ht.
    assert (t ∈ order_by_created_at_desc matching) as Hin.
    { eapply elem_of_sublist; [exact Ht|].
      etrans; [apply sublist_take | apply sublist_drop]. }
    rewrite elem_of_order_by_created_at_desc in Hin.
    subst matching. apply list_elem_of_filter in Hin as [H1 H2]. by split.
  - eapply StronglySorted_sublist;
      [|apply (order_by_created_at_desc_sorted matching)].
    etrans; [apply sublist_take | apply sublist_drop].
  - subst matching. destruct filter_status as [st|]; simpl.
    + unfold count_status. do 2 f_equal.
      induction (tasks s) as [|t rows IH]; [reflexivity|].
      rewrite !filter_cons, IH.
      destruct (decide (status t = st)) as [H|H].
      * rewrite bool_decide_eq_true_2 by exact H.
        destruct (decide (true = true)); [reflexivity | congruence].
      * rewrite bool_decide_eq_false_2 by exact H.
        destruct (decide (false = true)); [discriminate | reflexivity].
    + do 2 f_equal. induction (tasks s) as [|t rows IH]; [reflexivity|].
      rewrite filter_cons, IH.
      destruct (decide (true = true)); [reflexivity | congruence].
  - rewrite length_take, length_drop, length_order_by_created_at_desc.
    rewrite Nat2Z.id. reflexivity.
Qed.

(** X13. The pages of the listing endpoint tile the listing: pages 1 to
    [k] of size [page_size], one after the other, are the first
    [k * page_size] tasks of the whole ordered listing, so no task is
    skipped or shown twice. *)
Theorem pages_tile_the_listing filter_status page_size k q :
  concat ((fun page => fst (Routes.list_tasks filter_status page page_size q))
            <$> seq 1 k)
  = fst (list_tasks filter_status (k * page_size) 0 q).
Proof.
  unfold Routes.list_tasks, list_tasks. cbn [fst].
  set (listing := order_by_created_at_desc _).
  induction k as [|k IH].
  - reflexivity.
  - rewrite seq_S, fmap_app, concat_app, IH. simpl.
    rewrite app_nil_r, Nat.sub_0_r, !drop_0.
    rewrite take_take_drop. f_equal. lia.
Qed.

Lemma elem_of_insert_by_timestamp_desc e x l :
  e ∈ insert_by_timestamp_desc x l <-> e = x \/ e ∈ l.
Proof.
  induction l as [|u l IH]; simpl.
  - rewrite elem_of_cons. reflexivity.
  - destruct (timestamp u <=? timestamp x).
    + rewrite elem_of_cons. reflexivity.
    + rewrite !elem_of_cons, IH. tauto.
Qed.

Lemma elem_of_order_by_timestamp_desc e l :
  e ∈ order_by_timestamp_desc l <-> e ∈ l.
Proof.
  induction l as [|x l IH]; simpl; [reflexivity|].
  rewrite elem_of_insert_by_timestamp_desc, elem_of_cons, IH. reflexivity.
Qed.

Lemma insert_by_timestamp_desc_sorted x l :
  StronglySorted later_first l ->
  StronglySorted later_first (insert_by_timestamp_desc x l).
Proof.
  induction l as [|u l IH]; intros Hl; simpl.
  - repeat constructor.
  - apply StronglySorted_inv in Hl as [Hl Hu].
    destruct (timestamp u <=? timestamp x) eqn:E.
    + apply Z.leb_le in E. constructor; [by constructor|].
      constructor; [exact E|].
      eapply Forall_impl; [exact Hu|]. unfold later_first. intros y Hy. lia.
    + apply Z.leb_gt in E. constructor; [by apply IH|].
      apply Forall_forall. intros y Hy.
      apply elem_of_insert_by_timestamp_desc in Hy as [->|Hy].
      * unfold later_first. lia.
      * rewrite Forall_forall in Hu. by apply Hu.
Qed.

(** X14. [get_task_logs] returns at most [limit] entries, each a stored log
    entry of the requested task, latest first. *)
Theorem task_logs_of_task task_id limit s :
  let out := get_task_logs task_id limit s in
  (forall e, e ∈ out -> e ∈ task_logs s /\ log_task_id e = task_id)
  /\ (length out <= limit)%nat
  /\ StronglySorted later_first out.
Proof.
  intros out. subst out. unfold get_task_logs.
  set (own := filter _ (task_logs s)). split; [|split].
  - intros e He.
    assert (e ∈ order_by_timestamp_desc own) as Hin
      by (eapply elem_of_sublist; [exact He | apply sublist_take]).
    rewrite elem_of_order_by_timestamp_desc in Hin. subst own.
    apply list_elem_of_filter in Hin as [H1 H2].
    split; [exact H2 | by apply String.eqb_eq].
  - rewrite length_take. lia.
  - eapply StronglySorted_sublist; [apply sublist_take|].
    induction own as [|x l IH]; simpl; [constructor|].
    by apply insert_by_timestamp_desc_sorted.
Qed.

End QueueReads.

(** * Further properties of the runner *)

Section Runner.
Import ClaudeRunner.

(** X15. [cancel_task] returns true exactly when a child is registered
    under the id; afterwards none is, the other entries of the registry are
    as before, and a second call returns false and changes nothing: no
    signal is sent twice. *)
Theorem cancel_task_once task_id alive alive' r :
  let out := cancel_task task_id alive r in
  (fst out = true <-> is_Some (_active_processes r !! task_id))
  /\ _active_processes (snd out) !! task_id = None
  /\ (forall other, other <> task_id ->
        _active_processes (snd out) !! other = _active_processes r !! other)
  /\ cancel_task task_id alive' (snd out) = (false, snd out).
Proof.
  intros out. subst out. unfold cancel_task.
  destruct (_active_processes r !! task_id) as [p|] eqn:Hreg;
    cbn [fst snd pop _active_processes signals].
  - split; [split; eauto|]. split; [apply lookup_delete_eq|]. split.
    + intros other Hother. by apply lookup_delete_ne.
    + rewrite lookup_delete_eq. reflexivity.
  - split; [split; [discriminate | intros [? ?]; discriminate]|].
    split; [exact Hreg|]. split; [reflexivity|]. rewrite Hreg. reflexivity.
Qed.

(** X16. [_run_claude] leaves the registry clean: the entries of other
    tasks are untouched, the task's own entry is gone whenever a child was
    spawned, whether it exited, timed out or the wait was cancelled, and a
    signal is sent only to a child that timed out. *)
Theorem run_claude_registry task_id timeout sp r :
  let r' := snd (_run_claude task_id timeout sp r) in
  (forall other, other <> task_id ->
     _active_processes r' !! other = _active_processes r !! other)
  /\ (forall p, sp = Spawned p \/ sp = SpawnedCancelled p ->
        _active_processes r' !! task_id = None)
  /\ (signals r' <> signals r ->
        exists p, sp = Spawned p /\ exits_within timeout (exit_after p) = false).
Proof.
  intros r'. subst r'. unfold _run_claude.
  destruct sp as [| msg | p | p]; cbn [snd].
  - split; [reflexivity|]. split; [intros p [H|H]; discriminate H|].
    intros H. congruence.
  - split; [reflexivity|]. split; [intros p [H|H]; discriminate H|].
    intros H. congruence.
  - destruct (exits_within timeout (exit_after p)) eqn:Hexit; cbn [snd].
    + cbn [pop _active_processes signals]. split.
      { intros other Hother. rewrite lookup_delete_ne, lookup_insert_ne by done.
        reflexivity. }
      split; [intros; apply lookup_delete_eq|]. intros H. congruence.
    + unfold cancel_task. cbn [_active_processes signals].
      rewrite lookup_insert_eq. cbn [snd pop _active_processes signals]. split.
      { intros other Hother.
        rewrite !lookup_delete_ne, lookup_insert_ne by done. reflexivity. }
      split; [intros; apply lookup_delete_eq|]. intros _. eauto.
  - cbn [pop _active_processes signals]. split.
    { intros other Hother. rewrite lookup_delete_ne, lookup_insert_ne by done.
      reflexivity. }
    split; [intros; apply lookup_delete_eq|]. intros H. congruence.
Qed.


End Runner.

(** * Further properties of the worker *)

Section WorkerPass.
Import TaskQueue ClaudeRunner Worker.

Variable cfg : Settings.

Lemma select_by_id_elem rows t :
  t ∈ rows -> exists x, select_by_id (tid t) rows = Some x.
Proof.
  unfold select_by_id. intros Hin.
  destruct (List.find _ rows) as [x|] eqn:Hfind; [eauto|].
  apply list_elem_of_In in Hin.
  pose proof (find_none _ _ Hfind t Hin) as H. simpl in H.
  rewrite String.eqb_refl in H. discriminate H.
Qed.

(** The row of a dequeued task is in the store [dequeue] returns. *)
Lemma dequeue_stored now q task q1 :
  dequeue now q = (Some task, q1) ->
  exists stored,
    select_by_id (tid task) (tasks q1) = Some stored /\ status stored = RUNNING.
Proof.
  unfold dequeue. destruct (head _) as [t0|] eqn:Hhd; [|discriminate].
  intros [= <- <-].
  apply head_elem_of, elem_of_order_by_created_at, list_elem_of_filter
    in Hhd as [_ Hin].
  destruct (select_by_id_elem _ _ Hin) as [x Hx].
  cbn [tasks _log_event]. change (tid (claim now t0)) with (tid t0).
  rewrite select_by_id_update, Hx by reflexivity.
  eexists. split; reflexivity.
Qed.

(** The success branch of [process_task]. *)
Lemma process_task_success w task q r :
  success (fst (execute_task cfg task (start_time w) (end_time w) (spawn w) r))
  = true ->
  fst (process_task cfg w task q r)
  = match processing w with
    | inr p =>
        mark_completed (finish_time w) (tid task) (p_summary p) (p_cloud_links p)
          (mark_processing (processing_time w) (tid task) q)
    | inl e =>
        on_exception cfg w task e
          (mark_processing (processing_time w) (tid task) q)
    end.
Proof.
  unfold process_task.
  destruct (execute_task cfg task (start_time w) (end_time w) (spawn w) r)
    as [result r'].
  cbn [fst]. intros ->. destruct (processing w); reflexivity.
Qed.

Lemma filter_eligible_nil now rows :
  (forall t, t ∈ rows -> ~ claimable now t) ->
  filter (fun t => eligible now t = true) rows = [].
Proof.
  intros H. induction rows as [|t rows IH]; [reflexivity|].
  rewrite filter_cons.
  destruct (decide (eligible now t = true)) as [E|E].
  - exfalso. apply (H t); [left | by apply eligible_claimable].
  - apply IH. intros u Hu. apply H. by right.
Qed.

(** A pass of the worker over a store without a task to take changes
    nothing: tasks, logs, registry and signals are as before. *)
Theorem idle_pass w q r :
  (forall t, t ∈ tasks q -> ~ claimable (claim_time w) t) ->
  iteration cfg w q r = (q, r).
Proof.
  intros H. unfold iteration, dequeue.
  rewrite (filter_eligible_nil _ _ H). reflexivity.
Qed.



(** X21. A child that exits with a non-zero code within the timeout, also
    one ended by a signal, is a retryable failure: the task goes to RETRY
    while it has attempts left and to DEAD otherwise, never to FAILED, and
    its last error is the child's stderr, or "Claude exited with code N"
    when stderr is empty. *)
Theorem nonzero_exit_is_retried w task q r p stored :
  spawn w = Spawned p ->
  exits_within (get_task_timeout cfg (type_ task)) (exit_after p) = true ->
  returncode p <> 0 ->
  select_by_id (tid task) (tasks q) = Some stored ->
  exists task',
    select_by_id (tid task) (tasks (fst (process_task cfg w task q r)))
    = Some task'
    /\ status task'
       = (if attempts stored <? max_attempts stored then RETRY else DEAD)
    /\ status task' <> FAILED
    /\ last_error task'
       = Some (if String.eqb (stderr p) "" then
                 "Claude exited with code " +:+ str_int (returncode p)
               else stderr p).
Proof.
  intros Hspawn Hexit Hrc Hsel.
  pose proof (process_task_failure cfg w task q r stored Hsel) as Hq.
  rewrite Hspawn in *. unfold execute_task, _run_claude in Hq.
  rewrite Hexit in Hq. unfold exited_result in Hq.
  apply Z.eqb_neq in Hrc. rewrite Hrc in Hq. cbn in Hq.
  specialize (Hq eq_refl). rewrite Hq. eexists. split; [reflexivity|].
  assert (or_default
            (Some (if String.eqb (stderr p) "" then
                     "Claude exited with code " +:+ str_int (returncode p)
                   else stderr p)) "Unknown error"
          = (if String.eqb (stderr p) "" then
               "Claude exited with code " +:+ str_int (returncode p)
             else stderr p)) as Herr.
  { unfold or_default. destruct (String.eqb (stderr p) "") eqn:E.
    - reflexivity.
    - rewrite E. reflexivity. }
  unfold or_default in Herr.
  destruct (attempts stored <? max_attempts stored); cbn; rewrite Herr;
    (split; [reflexivity|]); (split; [discriminate | reflexivity]).
Qed.

(** X22. No pass leaves the task it took in RUNNING: whatever the child and
    the post-processing do, after the pass the task is COMPLETED, in RETRY,
    DEAD or FAILED. *)
Theorem pass_settles_task w q r task q1 :
  dequeue (claim_time w) q = (Some task, q1) ->
  exists task',
    select_by_id (tid task) (tasks (fst (iteration cfg w q r))) = Some task'
    /\ (status task' = COMPLETED \/ status task' = RETRY
        \/ status task' = DEAD \/ status task' = FAILED).
Proof.
  intros Hdq. unfold iteration. rewrite Hdq.
  destruct (dequeue_stored _ _ _ _ Hdq) as (stored & Hsel & _).
  destruct (success (fst (execute_task cfg task (start_time w) (end_time w)
                            (spawn w) r))) eqn:Hok.
  - rewrite (process_task_success w task q1 r Hok).
    assert (select_by_id (tid task)
              (tasks (mark_processing (processing_time w) (tid task) q1))
            = Some (set_status PROCESSING stored)) as Hsel'.
    { unfold mark_processing. cbn [tasks _log_event].
      rewrite select_by_id_update, Hsel by reflexivity. reflexivity. }
    destruct (processing w) as [e|pr].
    + unfold on_exception.
      destruct (mark_failed_stored cfg (finish_time w) (draw w) (tid task) e
                  true _ _ Hsel') as (st & q' & Hmf & Hq').
      rewrite Hmf. cbn [store_after]. rewrite Hq'. eexists.
      split; [reflexivity|]. cbn [andb].
      destruct (attempts _ <? max_attempts _); cbn; auto.
    + unfold mark_completed. cbn [tasks _log_event].
      rewrite select_by_id_update, Hsel' by reflexivity.
      eexists. split; [reflexivity|]. left. reflexivity.
  - rewrite (process_task_failure cfg w task q1 r stored Hsel Hok).
    eexists. split; [reflexivity|].
    destruct (negb _ && _); cbn; auto.
    destruct (negb _); cbn; auto.
Qed.

End WorkerPass.

(** X1 at the first task of a store. *)
Lemma enqueue_then_get_witness :
  TaskQueue.get_task "a"
    (snd (TaskQueue.enqueue default_settings 0 "a" "document" "X" "Y" None None
            None None empty_store))
  = Some (fst (TaskQueue.enqueue default_settings 0 "a" "document" "X" "Y" None
                 None None None empty_store)).
Proof.
  apply (enqueue_then_get default_settings 0 "a" "document" "X" "Y" None None
           None None empty_store).
  intros H. inversion H.
Defined.

(** An idle pass over a store whose only task is running. *)
Lemma idle_pass_witness :
  Worker.iteration default_settings
    (Examples.world ClaudeRunner.SpawnFileNotFound)
    Examples.running_store ClaudeRunner.new_runner
  = (Examples.running_store, ClaudeRunner.new_runner).
Proof.
  apply idle_pass. intros t Ht.
  apply list_elem_of_singleton in Ht as ->.
  intros [H|[H _]]; discriminate H.
Defined.



(** X21 at a document task whose child exits with code 1. *)
Lemma nonzero_exit_is_retried_witness :
  status <$> TaskQueue.select_by_id "a"
               (tasks (fst (Worker.process_task default_settings
                              (Examples.world (ClaudeRunner.Spawned Examples.failing))
                              (Examples.row "a" 0 RUNNING 1 None)
                              Examples.running_store ClaudeRunner.new_runner)))
  = Some RETRY.
Proof.
  assert (ClaudeRunner.returncode Examples.failing <> 0) as Hrc by discriminate.
  destruct (nonzero_exit_is_retried default_settings
              (Examples.world (ClaudeRunner.Spawned Examples.failing))
              (Examples.row "a" 0 RUNNING 1 None)
              Examples.running_store ClaudeRunner.new_runner _ _
              eq_refl eq_refl Hrc eq_refl)
    as (task' & Hsel & Hst & _).
  change (tid (Examples.row "a" 0 RUNNING 1 None)) with "a" in Hsel.
  rewrite Hsel. simpl. rewrite Hst. reflexivity.
Defined.

(** X22 at a freshly queued task whose child never exits. *)
Lemma pass_settles_task_witness :
  exists task',
    TaskQueue.select_by_id "a"
      (tasks (fst (Worker.iteration default_settings
                     (Examples.world (ClaudeRunner.Spawned Examples.hanging))
                     Examples.queued_store ClaudeRunner.new_runner)))
    = Some task'
    /\ (status task' = COMPLETED \/ status task' = RETRY
        \/ status task' = DEAD \/ status task' = FAILED).
Proof.
  exact (pass_settles_task default_settings
           (Examples.world (ClaudeRunner.Spawned Examples.hanging))
           Examples.queued_store ClaudeRunner.new_runner _ _ eq_refl).
Defined.

(** * Properties of the post-processing *)

Section OutputFiles.
Import ResultProcessor ResultDelivery.

Lemma first_existing_Some names files f :
  first_existing names files = Some f -> f ∈ files /\ In (fst f) names.
Proof.
  induction names as [|n ns IH]; simpl; [discriminate|].
  destruct (List.find _ files) as [g|] eqn:Hfind.
  - intros [= <-]. apply find_some in Hfind as [Hin Heq].
    apply String.eqb_eq in Heq. split; [by apply list_elem_of_In | by left].
  - intros H. destruct (IH H) as [H1 H2]. split; [exact H1 | by right].
Qed.

Lemma first_existing_None names files f :
  first_existing names files = None -> f ∈ files -> ~ In (fst f) names.
Proof.
  induction names as [|n ns IH]; simpl; [tauto|].
  destruct (List.find _ files) as [g|] eqn:Hfind; [discriminate|].
  intros H Hin [Heq|Hns].
  - apply list_elem_of_In in Hin.
    pose proof (find_none _ _ Hfind f Hin) as Hne. simpl in Hne.
    rewrite Heq, String.eqb_refl in Hne. discriminate Hne.
  - by apply (IH H Hin).
Qed.

Lemma glob_suffix_nil ext files :
  glob_suffix ext files = [] <->
  forall f, f ∈ files -> endswith ext (fst f) = false.
Proof.
  unfold glob_suffix, Directory. induction files as [|g files IH].
  - split; [intros _ f Hf; inversion Hf | reflexivity].
  - rewrite filter_cons. destruct (decide (endswith ext (fst g) = true)) as [E|E].
    + split; [discriminate|]. intros H. specialize (H g). rewrite E in H.
      discriminate H. left.
    + rewrite IH. apply not_true_is_false in E. split.
      * intros H f Hf. apply elem_of_cons in Hf as [->|Hf]; [exact E | by apply H].
      * intros H f Hf. apply H. by right.
Qed.

Lemma glob_suffix_head ext files f rest :
  glob_suffix ext files = f :: rest -> f ∈ files /\ endswith ext (fst f) = true.
Proof.
  intros H. assert (f ∈ glob_suffix ext files) as Hin by (rewrite H; left).
  unfold glob_suffix, Directory in Hin.
  apply list_elem_of_filter in Hin as [H1 H2].
  by split.
Qed.

(** X23. [_extract_summary] gives no summary exactly when the outputs
    directory holds no file whose name ends in [.md] and the agent's output
    is missing or empty; the agent's output is used only if the directory
    holds no such file. *)
Theorem extract_summary_sources files claude_output :
  (_extract_summary files claude_output = None <->
     (forall f, f ∈ files -> endswith ".md" (fst f) = false)
     /\ (claude_output = None \/ claude_output = Some ""))
  /\ (forall f, f ∈ files -> endswith ".md" (fst f) = true ->
        exists g, g ∈ files
                  /\ endswith ".md" (fst g) = true
                  /\ _extract_summary files claude_output
                     = Some (_extract_first_section (snd g) 500)).
Proof.
  unfold _extract_summary. split.
  - destruct (first_existing summary_files files) as [g|] eqn:Hfirst.
    + split; [discriminate|]. intros [Hno _]. exfalso.
      apply first_existing_Some in Hfirst as [Hin Hname].
      specialize (Hno g Hin).
      simpl in Hname.
      destruct Hname as [H|[H|[H|[H|[H|[]]]]]]; rewrite <- H in Hno;
        discriminate Hno.
    + destruct (glob_suffix ".md" files) as [|g rest] eqn:Hglob.
      * rewrite glob_suffix_nil in Hglob.
        destruct claude_output as [o|].
        -- destruct (String.eqb o "") eqn:E.
           ++ apply String.eqb_eq in E. subst o. split; auto.
           ++ apply String.eqb_neq in E. split; [discriminate|].
              intros [_ [H|[= H]]]; [discriminate H | congruence].
        -- split; auto.
      * split; [discriminate|]. intros [Hno _].
        apply glob_suffix_head in Hglob as [Hin Hend].
        rewrite (Hno g Hin) in Hend. discriminate Hend.
  - intros f Hf Hend.
    destruct (first_existing summary_files files) as [g|] eqn:Hfirst.
    + apply first_existing_Some in Hfirst as [Hin Hname].
      exists g. split; [exact Hin|]. split; [|reflexivity].
      simpl in Hname.
      destruct Hname as [H|[H|[H|[H|[H|[]]]]]]; rewrite <- H; reflexivity.
    + destruct (glob_suffix ".md" files) as [|g rest] eqn:Hglob.
      * rewrite glob_suffix_nil in Hglob. rewrite (Hglob f Hf) in Hend.
        discriminate Hend.
      * apply glob_suffix_head in Hglob as [Hin Hend'].
        exists g. repeat split; assumption.
Qed.

(** X24. [_find_main_output] finds a file exactly when the directory holds
    one whose name ends in [.pdf] or [.md], and the file it returns is in the
    directory and has such a name. *)
Theorem find_main_output_found files :
  (_find_main_output files = None <->
     forall f, f ∈ files ->
       endswith ".pdf" (fst f) = false /\ endswith ".md" (fst f) = false)
  /\ (forall name, _find_main_output files = Some name ->
        (exists f, f ∈ files /\ fst f = name)
        /\ (endswith ".pdf" name = true \/ endswith ".md" name = true)).
Proof.
  unfold _find_main_output.
  destruct (first_existing main_candidates files) as [g|] eqn:Hfirst.
  - apply first_existing_Some in Hfirst as [Hin Hname]. simpl in Hname.
    assert (endswith ".pdf" (fst g) = true \/ endswith ".md" (fst g) = true)
      as Hend
      by (destruct Hname as [H|[H|[H|[H|[H|[H|[]]]]]]]; rewrite <- H;
          (left; reflexivity) || (right; reflexivity)).
    split.
    + split; [discriminate|]. intros Hno. destruct (Hno g Hin) as [H1 H2].
      destruct Hend as [H|H]; congruence.
    + intros name [= <-]. split; [eauto | exact Hend].
  - destruct (glob_suffix ".pdf" files) as [|g rest] eqn:Hpdf.
    + destruct (glob_suffix ".md" files) as [|g rest] eqn:Hmd.
      * rewrite glob_suffix_nil in Hpdf, Hmd. split; [|discriminate].
        split; [intros _ f Hf; split; auto | reflexivity].
      * apply glob_suffix_head in Hmd as [Hin Hend]. split.
        -- split; [discriminate|]. intros Hno. destruct (Hno g Hin) as [_ H].
           congruence.
        -- intros name [= <-]. split; [eauto | by right].
    + apply glob_suffix_head in Hpdf as [Hin Hend]. split.
      * split; [discriminate|]. intros Hno. destruct (Hno g Hin) as [H _].
        congruence.
      * intros name [= <-]. split; [eauto | by left].
Qed.

End OutputFiles.

Section Uploads.
Import ResultProcessor ResultDelivery.

Lemma append_assoc (a b c : string) : (a +:+ b) +:+ c = a +:+ (b +:+ c).
Proof.
  induction a as [|x a IH]; [reflexivity|].
  change (String x ((a +:+ b) +:+ c) = String x (a +:+ (b +:+ c))).
  by rewrite IH.
Qed.

Lemma append_nil_l (s : string) : "" +:+ s = s.
Proof. reflexivity. Qed.

Lemma append_cons c (a b : string) : String c a +:+ b = String c (a +:+ b).
Proof. reflexivity. Qed.

Lemma prefix_append (p s : string) : String.prefix p (p +:+ s) = true.
Proof.
  induction p as [|x p IH]; simpl; [by destruct s|].
  destruct (ascii_dec x x); [exact IH | congruence].
Qed.

Lemma drop_prefix_Some p : forall s rest,
  drop_prefix p s = Some rest -> s = p +:+ rest.
Proof.
  induction p as [|a p IH]; intros s rest; simpl.
  - by intros [= ->].
  - destruct s as [|b s]; [discriminate|].
    destruct (Ascii.eqb a b) eqn:E; [|discriminate].
    apply Ascii.eqb_eq in E. subst b. intros H. by rewrite (IH s rest H).
Qed.

Lemma take_nonspace_split s :
  exists tail,
    s = take_nonspace s +:+ tail
    /\ (tail = "" \/ exists c t, tail = String c t /\ isspace c = true).
Proof.
  induction s as [|c s (tail & Hs & Htail)]; simpl.
  - exists "". auto.
  - destruct (isspace c) eqn:E.
    + exists (String c s). split; [reflexivity|]. right. eauto.
    + exists tail. split; [by rewrite append_cons, <- Hs | exact Htail].
Qed.

Lemma take_nonspace_idem s : take_nonspace (take_nonspace s) = take_nonspace s.
Proof.
  induction s as [|c s IH]; simpl; [reflexivity|].
  destruct (isspace c) eqn:E; simpl; [reflexivity|]. by rewrite E, IH.
Qed.

Lemma search_url_unfold prefix s :
  search_url prefix s
  = match match_at prefix s with
    | Some m => Some m
    | None =>
        match s with
        | EmptyString => None
        | String _ s' => search_url prefix s'
        end
    end.
Proof. destruct s; reflexivity. Qed.

(** X25. What the URL search returns is a stretch of the searched text
    that starts with the fixed part of the pattern, goes on for at least
    one character, holds no whitespace after the fixed part, and ends at a
    whitespace character or at the end of the text. *)
Theorem search_url_match prefix s m :
  search_url prefix s = Some m ->
  exists before body tail,
    s = before +:+ m +:+ tail
    /\ m = prefix +:+ body
    /\ body <> ""
    /\ take_nonspace body = body
    /\ (tail = "" \/ exists c t, tail = String c t /\ isspace c = true).
Proof.
  induction s as [|c s IH]; rewrite search_url_unfold.
  - unfold match_at. destruct (drop_prefix prefix "") as [rest|] eqn:Hdrop;
      [|discriminate].
    destruct prefix; [|discriminate]. injection Hdrop as <-. discriminate.
  - destruct (match_at prefix (String c s)) as [m'|] eqn:Hm.
    + intros [= ->]. unfold match_at in Hm.
      destruct (drop_prefix prefix (String c s)) as [rest|] eqn:Hdrop;
        [|discriminate].
      destruct (take_nonspace rest) as [|x body] eqn:Hbody; [discriminate|].
      injection Hm as <-.
      destruct (take_nonspace_split rest) as (tail & Hrest & Htail).
      exists "", (String x body), tail.
      apply drop_prefix_Some in Hdrop. rewrite Hdrop.
      split; [by rewrite append_nil_l, append_assoc, <- Hbody, <- Hrest|].
      split; [reflexivity|]. split; [discriminate|].
      split; [rewrite <- Hbody; apply take_nonspace_idem | exact Htail].
    + intros H. destruct (IH H) as (before & body & tail & Hs & Hrest).
      exists (String c before), body, tail.
      split; [by rewrite append_cons, <- Hs|].
      exact Hrest.
Qed.

Lemma search_url_prefix prefix s m :
  search_url prefix s = Some m -> String.prefix prefix m = true.
Proof.
  intros H. destruct (search_url_match prefix s m H)
    as (_ & body & _ & _ & -> & _).
  apply prefix_append.
Qed.

Lemma upload_each_None run command not_found names :
  upload_each run command not_found names = None <->
  Forall (fun n => exists out err, run (command n) = CliExit 0 out err) names.
Proof.
  induction names as [|n names IH]; simpl.
  - split; [constructor | reflexivity].
  - destruct (run (command n)) as [| msg | rc out err] eqn:Hrun.
    + split; [discriminate|]. intros H. apply Forall_cons in H as [(o & e & H) _].
      congruence.
    + split; [discriminate|]. intros H. apply Forall_cons in H as [(o & e & H) _].
      congruence.
    + destruct (rc =? 0)%Z eqn:Hrc.
      * apply Z.eqb_eq in Hrc. subst rc. rewrite IH. split.
        -- intros H. constructor; [eauto | exact H].
        -- intros H. by apply Forall_cons in H as [_ H].
      * apply Z.eqb_neq in Hrc. split; [discriminate|]. intros H.
        apply Forall_cons in H as [(o & e & H) _]. congruence.
Qed.

Lemma upload_each_Some run command not_found names res :
  upload_each run command not_found names = Some res ->
  success res = false /\ url res = None /\ error res <> None.
Proof.
  induction names as [|n names IH]; simpl; [discriminate|].
  destruct (run (command n)) as [| msg | rc out err].
  - intros [= <-]. repeat split. discriminate.
  - intros [= <-]. repeat split. discriminate.
  - destruct (rc =? 0)%Z; [exact IH|]. intros [= <-]. repeat split. discriminate.
Qed.

(** The course of an upload, whatever the sink. *)
Lemma upload_then_share_result run command share not_found url_prefix fallback names :
  let res := upload_then_share run command share not_found url_prefix fallback names in
  (success res = true <->
     names <> []
     /\ Forall (fun n => exists out err, run (command n) = CliExit 0 out err) names
     /\ exists rc out err, run share = CliExit rc out err)
  /\ (success res = true ->
        error res = None
        /\ exists u, url res = Some u
                     /\ (u = fallback \/ String.prefix url_prefix u = true))
  /\ (success res = false -> url res = None /\ error res <> None).
Proof.
  intros res. subst res. unfold upload_then_share.
  destruct names as [|n names].
  - simpl. split; [split; [discriminate | intros [H _]; congruence]|].
    split; [discriminate|]. intros _. split; [reflexivity | discriminate].
  - destruct (upload_each run command not_found (n :: names)) as [res|] eqn:Heach.
    + destruct (upload_each_Some _ _ _ _ _ Heach) as (H1 & H2 & H3).
      split; [|split; [congruence | auto]].
      split; [congruence|]. intros (_ & Hall & _).
      apply (proj2 (upload_each_None run command not_found _)) in Hall.
      rewrite Hall in Heach. discriminate Heach.
    + apply (proj1 (upload_each_None run command not_found _)) in Heach.
      destruct (run share) as [| msg | rc out err] eqn:Hshare; simpl.
      * split; [split; [discriminate | intros (_ & _ & ? & ? & ? & H); congruence]|].
        split; [discriminate|]. intros _. split; [reflexivity | discriminate].
      * split; [split; [discriminate | intros (_ & _ & ? & ? & ? & H); congruence]|].
        split; [discriminate|]. intros _. split; [reflexivity | discriminate].
      * split; [split; [intros _; split; [discriminate | eauto 6] | reflexivity]|].
        split; [|discriminate]. intros _. split; [reflexivity|].
        eexists. split; [reflexivity|].
        destruct (rc =? 0)%Z; [|by left].
        destruct (search_url url_prefix out) as [m|] eqn:Hm; [|by left].
        right. by eapply search_url_prefix.
Qed.

(** X26. An upload to Google Drive or to OneDrive succeeds exactly when
    there is a file to upload (one whose name does not start with a dot),
    every upload command exits with code 0 and the sharing command runs at
    all; the exit code of the sharing command does not matter. A success
    carries no error and a link that is either an [https://] address found
    in the output of the sharing command or the fallback
    [gdrive://folder/id] or [onedrive://folder/id]; a failure carries an
    error and no link. *)
Theorem uploads_result run outputs files folder task_id :
  let target := folder +:+ "/" +:+ task_id in
  let uploaded command :=
    Forall (fun n => exists out err, run (command n) = CliExit 0 out err)
      (visible_names files) in
  let g := _upload_to_gdrive run outputs files folder task_id in
  let o := _upload_to_onedrive run outputs files folder task_id in
  ((success g = true <->
      visible_names files <> []
      /\ uploaded (fun n => ["gdcli"; "upload"; outputs +:+ "/" +:+ n; target])
      /\ exists rc out err,
           run ["gdcli"; "share"; target; "--anyone"; "--role"; "reader"]
           = CliExit rc out err)
   /\ (success g = true ->
         error g = None
         /\ exists u, url g = Some u
                      /\ (u = "gdrive://" +:+ target
                          \/ String.prefix "https://drive.google.com/" u = true))
   /\ (success g = false -> url g = None /\ error g <> None))
  /\ ((success o = true <->
         visible_names files <> []
         /\ uploaded (fun n => ["onedrive"; "cp"; outputs +:+ "/" +:+ n;
                                 target +:+ "/" +:+ n])
         /\ exists rc out err,
              run ["onedrive"; "chmod"; target; "+r"] = CliExit rc out err)
      /\ (success o = true ->
            error o = None
            /\ exists u, url o = Some u
                         /\ (u = "onedrive://" +:+ target
                             \/ String.prefix "https://" u = true))
      /\ (success o = false -> url o = None /\ error o <> None)).
Proof.
  intros target uploaded g o. split.
  - apply (upload_then_share_result run
             (fun n => ["gdcli"; "upload"; outputs +:+ "/" +:+ n; target])).
  - apply (upload_then_share_result run
             (fun n => ["onedrive"; "cp"; outputs +:+ "/" +:+ n;
                        target +:+ "/" +:+ n])).
Qed.

End Uploads.

(** X25 at a line of text with an address in it. *)
Lemma search_url_match_witness :
  exists before body tail,
    "see https://x.y/z now" = before +:+ "https://x.y/z" +:+ tail
    /\ "https://x.y/z" = "https://" +:+ body
    /\ body <> ""
    /\ ResultDelivery.take_nonspace body = body
    /\ (tail = ""
        \/ exists c t, tail = String c t /\ ResultProcessor.isspace c = true).
Proof.
  exact (search_url_match "https://" "see https://x.y/z now" "https://x.y/z"
           eq_refl).
Defined.

Section Delivery.
Import ResultProcessor ResultDelivery.

Lemma record_upload_adds_one key label upload acc :
  (success upload = true -> exists u, url upload = Some u) ->
  (length (fst (record_upload key label upload acc))
   + length (snd (record_upload key label upload acc))
   = S (length (fst acc) + length (snd acc)))%nat.
Proof.
  intros Hurl. unfold record_upload. destruct (success upload).
  - destruct (Hurl eq_refl) as [u ->]. cbn [fst snd]. rewrite length_app.
    simpl. lia.
  - cbn [fst snd]. rewrite length_app. simpl. lia.
Qed.

Lemma gdrive_success_url run outputs files folder task_id :
  success (_upload_to_gdrive run outputs files folder task_id) = true ->
  exists u, url (_upload_to_gdrive run outputs files folder task_id) = Some u.
Proof.
  intros H. unfold _upload_to_gdrive in *.
  match goal with
  | |- context [upload_then_share ?r ?c ?s ?n ?p ?f ?l] =>
      destruct (upload_then_share_result r c s n p f l) as (_ & Hok & _)
  end.
  destruct (Hok H) as (_ & u & Hu & _). eauto.
Qed.

Lemma onedrive_success_url run outputs files folder task_id :
  success (_upload_to_onedrive run outputs files folder task_id) = true ->
  exists u, url (_upload_to_onedrive run outputs files folder task_id) = Some u.
Proof.
  intros H. unfold _upload_to_onedrive in *.
  match goal with
  | |- context [upload_then_share ?r ?c ?s ?n ?p ?f ?l] =>
      destruct (upload_then_share_result r c s n p f l) as (_ & Hok & _)
  end.
  destruct (Hok H) as (_ & u & Hu & _). eauto.
Qed.

(** Each selected sink leaves one link or one error. *)
Lemma upload_all_count run outputs files folder task_id st :
  (length (fst (upload_all run outputs files folder task_id st))
   + length (snd (upload_all run outputs files folder task_id st))
   = (if selects "google_drive" st then 1 else 0)
     + (if selects "onedrive" st then 1 else 0))%nat.
Proof.
  unfold upload_all.
  destruct (selects "google_drive" st); destruct (selects "onedrive" st);
    rewrite ?record_upload_adds_one
      by (apply gdrive_success_url || apply onedrive_success_url);
    reflexivity.
Qed.

(** X27. For a task with an outputs directory, [process] always returns,
    with the summary of [_extract_summary] whatever happens to the uploads.
    Without a delivery object, or without a storage name in it, there are no
    links and no upload errors. With a storage name, each sink the name
    selects leaves exactly one link or one error, both sinks for "both", and
    a name that is none of "google_drive", "onedrive" and "both" uploads
    nothing and reports no error. A notification counts as sent only if an
    email address is given and the mail command succeeded. *)
Theorem process_delivery run notify files task claude_output outputs :
  outputs_path task = Some outputs ->
  exists res,
    process run notify files task claude_output = Some res
    /\ summary res = _extract_summary files claude_output
    /\ ((delivery task = None
         \/ exists d, delivery task = Some d
                      /\ (storage d = None \/ storage d = Some "")) ->
        cloud_links res = None /\ upload_errors res = None)
    /\ (forall d st,
          delivery task = Some d -> storage d = Some st -> st <> "" ->
          exists links errors,
            cloud_links res = Some links
            /\ upload_errors res = Some errors
            /\ (length links + length errors
                = (if selects "google_drive" st then 1 else 0)
                  + (if selects "onedrive" st then 1 else 0))%nat
            /\ (st <> "google_drive" -> st <> "onedrive" -> st <> "both" ->
                links = [] /\ errors = []))
    /\ (notification_sent res = true ->
          exists d to_,
            delivery task = Some d /\ email d = Some to_ /\ to_ <> ""
            /\ sent (notify (summary res) (cloud_links res)) = true).
Proof.
  intros Hout. unfold process. rewrite Hout.
  destruct (delivery task) as [d|].
  2:{ eexists. split; [reflexivity|]. split; [reflexivity|].
      split; [auto|]. split; [discriminate|]. discriminate. }
  set (uploads := match storage d with
                  | Some st =>
                      if String.eqb st "" then None
                      else Some (upload_all run outputs files
                                   (format_optional (folder d)) (tid task) st)
                  | None => None
                  end).
  assert (exists res,
            match email d with
            | Some to_ =>
                if String.eqb to_ "" then
                  Some (mkProcessingResult (_extract_summary files claude_output)
                          (fst <$> uploads) (snd <$> uploads) false None)
                else
                  Some (mkProcessingResult (_extract_summary files claude_output)
                          (fst <$> uploads) (snd <$> uploads)
                          (sent (notify (_extract_summary files claude_output)
                                   (fst <$> uploads)))
                          (notification_failure
                             (notify (_extract_summary files claude_output)
                                (fst <$> uploads))))
            | None =>
                Some (mkProcessingResult (_extract_summary files claude_output)
                        (fst <$> uploads) (snd <$> uploads) false None)
            end = Some res
            /\ summary res = _extract_summary files claude_output
            /\ cloud_links res = fst <$> uploads
            /\ upload_errors res = snd <$> uploads
            /\ (notification_sent res = true ->
                  exists to_, email d = Some to_ /\ to_ <> ""
                              /\ sent (notify (summary res) (cloud_links res))
                                 = true))
    as (res & Hres & Hsum & Hlinks & Herrs & Hsent).
  { destruct (email d) as [to_|].
    - destruct (String.eqb to_ "") eqn:E.
      + eexists. repeat split; try reflexivity. discriminate.
      + apply String.eqb_neq in E. eexists. repeat split; try reflexivity.
        cbn. intros H. eauto.
    - eexists. repeat split; try reflexivity. discriminate. }
  exists res. split; [exact Hres|]. split; [exact Hsum|]. split; [|split].
  - intros [H|(d' & [= <-] & Hst)]; [discriminate|].
    rewrite Hlinks, Herrs. subst uploads.
    destruct Hst as [-> | ->]; split; reflexivity.
  - intros d' st [= <-] Hst Hne. rewrite Hlinks, Herrs. subst uploads.
    rewrite Hst. apply String.eqb_neq in Hne. rewrite Hne. cbn [fmap option_fmap option_map].
    eexists _, _. split; [reflexivity|]. split; [reflexivity|].
    split; [apply upload_all_count|].
    intros H1 H2 H3. unfold upload_all, selects.
    apply String.eqb_neq in H1, H2, H3. rewrite H1, H2, H3. split; reflexivity.
  - intros H. destruct (Hsent H) as (to_ & H1 & H2 & H3). eauto 6.
Qed.

End Delivery.

(** X27 at a task without delivery preferences. *)
Lemma process_delivery_witness :
  exists res,
    ResultDelivery.process (fun _ => ResultDelivery.CliNotFound)
      (fun _ _ => ResultDelivery.mkNotificationResult false None)
      [("report.md", "# Done")] (Examples.row "a" 0 RUNNING 1 None) None
    = Some res
    /\ ResultDelivery.summary res = Some "# Done".
Proof.
  destruct (process_delivery (fun _ => ResultDelivery.CliNotFound)
              (fun _ _ => ResultDelivery.mkNotificationResult false None)
              [("report.md", "# Done")] (Examples.row "a" 0 RUNNING 1 None) None
              _ eq_refl) as (res & H1 & H2 & _).
  exists res. split; [exact H1|]. rewrite H2. reflexivity.
Defined.

(** * Further properties of the summary extraction *)

Section SummaryLines.
Import ResultProcessor.
Local Open Scope nat_scope.

Lemma outside_fences_no_fence lines : forall in_code_block,
  Forall (fun l => startswith fence (strip l) = false)
    (outside_fences in_code_block lines).
Proof.
  induction lines as [|line rest IH]; intros b; simpl; [constructor|].
  destruct (startswith fence (strip line)) eqn:E; [apply IH|].
  destruct b; [apply IH|]. constructor; [exact E | apply IH].
Qed.

Lemma Forall_drop_leading_blank (P : string -> Prop) lines :
  Forall P lines -> Forall P (drop_leading_blank lines).
Proof.
  induction 1 as [|l lines Hl Hlines IH]; simpl; [constructor|].
  destruct (is_blank l); [exact IH | by constructor].
Qed.

Lemma Forall_until_hash (P : string -> Prop) lines :
  Forall P lines -> Forall P (until_hash lines).
Proof.
  induction 1 as [|l lines Hl Hlines IH]; simpl; [constructor|].
  destruct (startswith "#" l); [constructor | by constructor].
Qed.

Lemma Forall_cap_lines (P : string -> Prop) max_length lines : forall seen,
  Forall P lines -> Forall P (cap_lines max_length seen lines).
Proof.
  induction lines as [|l lines IH]; intros seen H; simpl; [constructor|].
  apply Forall_cons in H as [Hl Hlines].
  destruct (max_length <? seen + String.length l).
  - by repeat constructor.
  - constructor; [exact Hl | by apply IH].
Qed.

Lemma drop_leading_blank_head lines l rest :
  drop_leading_blank lines = l :: rest -> is_blank l = false.
Proof.
  induction lines as [|x lines IH]; simpl; [discriminate|].
  destruct (is_blank x) eqn:E; [exact IH | intros [= <- _]; exact E].
Qed.

(** X28. The lines that [_extract_first_section] keeps for the summary
    never include a code fence line, and the first of them is not blank; a
    text that is empty or all whitespace has the empty summary. *)
Theorem summary_lines_clean content max_length :
  let kept := scan_lines max_length (split_lines (strip content)) [] false in
  Forall (fun l => startswith fence (strip l) = false) kept
  /\ (forall l rest, kept = l :: rest -> strip l <> "")
  /\ (strip content = "" -> _extract_first_section content max_length = "").
Proof.
  intros kept. subst kept. rewrite scan_lines_start. split; [|split].
  - apply Forall_cap_lines. unfold first_block.
    pose proof (Forall_drop_leading_blank _ _
                  (outside_fences_no_fence (split_lines (strip content)) false))
      as H.
    destruct (drop_leading_blank _) as [|l rest]; [constructor|].
    apply Forall_cons in H as [Hl Hrest].
    constructor; [exact Hl | by apply Forall_until_hash].
  - intros l rest Hkept.
    destruct (drop_leading_blank
                (outside_fences false (split_lines (strip content))))
      as [|l' rest'] eqn:Hdrop; [discriminate Hkept|].
    apply drop_leading_blank_head in Hdrop.
    assert (l = l') as ->.
    { simpl in Hkept. destruct (max_length <? String.length l');
        congruence. }
    unfold is_blank in Hdrop. by apply String.eqb_neq.
  - intros Hblank. unfold _extract_first_section. rewrite Hblank.
    destruct max_length; reflexivity.
Qed.

End SummaryLines.

(** * Properties of the submission validators and of the endpoints *)

Section Validators.
Import ResultProcessor ApiModels.
Local Open Scope nat_scope.

Lemma length_lstrip (s : string) : String.length (lstrip s) <= String.length s.
Proof.
  induction s as [|c s IH]; simpl; [lia|].
  destruct (isspace c); simpl; lia.
Qed.

Lemma length_rstrip (s : string) : String.length (rstrip s) <= String.length s.
Proof.
  induction s as [|c s IH]; simpl; [lia|].
  destruct (rstrip s); [destruct (isspace c)|]; simpl in *; lia.
Qed.

Lemma rstrip_idem (s : string) : rstrip (rstrip s) = rstrip s.
Proof.
  induction s as [|c s IH]; simpl; [reflexivity|].
  destruct (rstrip s) as [|d r] eqn:E.
  - destruct (isspace c) eqn:Hc; simpl; [reflexivity|]. by rewrite Hc.
  - change (rstrip (String c (String d r)))
      with (match rstrip (String d r) with
            | EmptyString => if isspace c then EmptyString else String c EmptyString
            | x => String c x
            end).
    rewrite IH. reflexivity.
Qed.

Lemma lstrip_starts_nonspace (s : string) :
  match lstrip s with
  | EmptyString => True
  | String c _ => isspace c = false
  end.
Proof.
  induction s as [|c s IH]; simpl; [exact I|].
  destruct (isspace c) eqn:E; [exact IH | exact E].
Qed.

Lemma lstrip_rstrip_nonspace c (s : string) :
  isspace c = false -> lstrip (rstrip (String c s)) = rstrip (String c s).
Proof.
  intros Hc. simpl. destruct (rstrip s); rewrite ?Hc; simpl; rewrite Hc;
    reflexivity.
Qed.

(** Stripping twice is stripping once. *)
Lemma strip_idem (s : string) : strip (strip s) = strip s.
Proof.
  unfold strip. pose proof (lstrip_starts_nonspace s) as H.
  destruct (lstrip s) as [|c t]; [reflexivity|].
  rewrite lstrip_rstrip_nonspace by exact H. apply rstrip_idem.
Qed.

Lemma length_strip (s : string) : String.length (strip s) <= String.length s.
Proof.
  unfold strip. pose proof (length_rstrip (lstrip s)).
  pose proof (length_lstrip s). lia.
Qed.

(** X29. A title is refused exactly when it has more than 200 characters
    or is empty or all whitespace; an accepted title is the given one
    without its leading and trailing whitespace: it is not empty, has at most
    200 characters and no whitespace at either end left to strip. *)
Theorem validate_title_result v :
  match validate_title v with
  | inl _ => 200 < String.length v \/ strip v = ""
  | inr t =>
      t = strip v /\ t <> "" /\ String.length t <= 200 /\ strip t = t
      /\ String.length v <= 200
  end.
Proof.
  unfold validate_title.
  destruct (200 <? String.length v) eqn:Hlen.
  - apply Nat.ltb_lt in Hlen. by left.
  - apply Nat.ltb_ge in Hlen.
    destruct (String.eqb (strip v) "") eqn:E.
    + apply String.eqb_eq in E. by right.
    + apply String.eqb_neq in E. split; [reflexivity|]. split; [exact E|].
      split; [pose proof (length_strip v); lia|].
      split; [apply strip_idem | exact Hlen].
Qed.

Lemma first_unsupported_None v :
  first_unsupported v = None <->
  Forall (fun a => is_allowed (extension a) = true) v.
Proof.
  induction v as [|a v IH]; simpl.
  - split; [constructor | reflexivity].
  - destruct (is_allowed (extension a)) eqn:E.
    + rewrite IH. split; [by constructor | intros H; by apply Forall_cons in H as [_ H]].
    + split; [discriminate|]. intros H. apply Forall_cons in H as [H _].
      congruence.
Qed.

Lemma after_last_dot_no_dot (s : string) :
  after_last_dot s = None -> extension s = "".
Proof. unfold extension. by intros ->. Qed.

(** X30. [validate_attachments] accepts a missing list and otherwise
    accepts exactly the lists in which every name has, after its last dot
    and in lower case, one of the eleven allowed extensions; it returns an
    accepted list unchanged, and it refuses every list that holds a name
    without a dot. *)
Theorem validate_attachments_result v :
  match validate_attachments v with
  | inr v' =>
      v' = v
      /\ forall l, v = Some l ->
           Forall (fun a => exists e, after_last_dot a = Some e
                                      /\ In (lower e) ALLOWED_ATTACHMENT_TYPES) l
  | inl _ =>
      exists l, v = Some l
                /\ ~ Forall (fun a => is_allowed (extension a) = true) l
  end.
Proof.
  unfold validate_attachments. destruct v as [l|].
  - destruct (first_unsupported l) as [msg|] eqn:Hfirst.
    + exists l. split; [reflexivity|]. intros H.
      apply first_unsupported_None in H. congruence.
    + split; [reflexivity|]. intros l' [= <-].
      apply first_unsupported_None in Hfirst.
      eapply Forall_impl; [exact Hfirst|]. intros a Ha. simpl in Ha.
      unfold extension in Ha.
      destruct (after_last_dot a) as [e|]; [|discriminate Ha].
      exists e. split; [reflexivity|].
      unfold is_allowed in Ha. apply existsb_exists in Ha as (x & Hx & Heq).
      apply String.eqb_eq in Heq. by subst x.
  - split; [reflexivity|]. discriminate.
Qed.

End Validators.

Section Endpoints.
Import TaskQueue.

(** X18. The cancel endpoint answers 404 exactly for an unknown id and
    succeeds exactly for a stored task that is not COMPLETED, DEAD or FAILED;
    when it succeeds the task is FAILED with the error "Cancelled by user"
    and the completion time [now]; when it does not, store and runner are
    untouched. Without another writer in between it never answers "Failed
    to cancel task", and it signals a child only for a task that was
    RUNNING. *)
Theorem cancel_endpoint now alive task_id q r :
  let out := Routes.cancel_task now alive task_id q r in
  let resp := fst (fst out) in
  let q' := snd (fst out) in
  let r' := snd out in
  (resp = Routes.not_found task_id <-> get_task task_id q = None)
  /\ (resp = Routes.Answer tt <->
        exists task, get_task task_id q = Some task
                     /\ is_terminal (status task) = false)
  /\ (resp = Routes.Answer tt ->
        exists task', get_task task_id q' = Some task'
                      /\ status task' = FAILED
                      /\ last_error task' = Some "Cancelled by user"
                      /\ completed_at task' = Some now)
  /\ (resp <> Routes.Answer tt -> q' = q /\ r' = r)
  /\ resp <> Routes.HTTPException 409 "Failed to cancel task"
               "TASK_ALREADY_COMPLETED"
  /\ (ClaudeRunner.signals r' <> ClaudeRunner.signals r ->
        exists task, get_task task_id q = Some task /\ status task = RUNNING).
Proof.
  intros out resp q' r'. subst resp q' r' out. unfold Routes.cancel_task.
  destruct (get_task task_id q) as [task|] eqn:Hget.
  2:{ cbn [fst snd]. split; [tauto|].
      split; [split; [discriminate | intros (t & H & _); discriminate H]|].
      split; [discriminate|]. split; [auto|]. split; [discriminate | congruence]. }
  destruct (is_terminal (status task)) eqn:Hterm.
  { cbn [fst snd]. split; [split; discriminate|].
    split; [split; [discriminate | intros (t & [= <-] & H); congruence]|].
    split; [discriminate|]. split; [auto|].
    split; [discriminate | congruence]. }
  unfold get_task in Hget. unfold cancel. rewrite Hget, Hterm. cbn [negb].
  assert (exists task',
            get_task task_id
              (_log_event
                 (mkStore (update_by_id task_id (cancelled now) (tasks q))
                    (task_logs q))
                 now task_id "info" "task_cancelled" "Task cancelled by user"
                 None None) = Some task'
            /\ status task' = FAILED
            /\ last_error task' = Some "Cancelled by user"
            /\ completed_at task' = Some now) as Hafter.
  { unfold get_task. cbn [tasks _log_event].
    rewrite select_by_id_update, Hget by reflexivity.
    eexists. repeat split; reflexivity. }
  destruct (bool_decide (status task = RUNNING)) eqn:Hrun; cbn [fst snd].
  - apply bool_decide_eq_true in Hrun.
    split; [split; discriminate|]. split; [split; eauto|].
    split; [auto|]. split; [congruence|]. split; [discriminate | eauto].
  - split; [split; discriminate|]. split; [split; eauto|].
    split; [auto|]. split; [congruence|]. split; [discriminate | congruence].
Qed.

End Endpoints.
